(** * go-json2csv: the flattening converter, embedded and verified

    A shallow embedding of package [json2csv] (convert.go, utils.go,
    types.go): the path resolver [getValueByDotPath], the flatten-target
    detector [getFlattenArrayPath], the cell renderer [valueToString] and
    the driver [Convert], followed by the properties of the specification
    that were checked against them.

    Conventions.
    - A Go [string] is a [string] (a sequence of bytes); a [rune] is a [Z].
    - A Go [map[string]interface{}] is a [gmap string value]; a nil map
      reads like the empty map, which is all this package does with one.
    - A Go [(T, error)] result is a [res T]; [Convert], which leaves the
      rows already written in place when it fails, returns the writer
      together with an [option error].
    - [encoding/json] and [encoding/csv] are outside the package: the
      decoder is modelled on the sequence of JSON values it will find, the
      writer on the rows it has accepted.
    - Left out: [FormatUnixTimestamp], which needs the number inside a
      float64 and the calendar and time zone of package [time]. *)

From Stdlib Require Import ZArith String Ascii List Lia.
From stdpp Require Import base option strings gmap list sorting pretty.

Open Scope string_scope.

(** ** Package [strings] (the functions the package calls) *)

Module strings.

(** [strings.HasPrefix s prefix]. *)
Fixpoint HasPrefix (s prefix : string) : bool :=
  match prefix, s with
  | EmptyString, _ => true
  | String _ _, EmptyString => false
  | String p prefix', String c s' => if Ascii.eqb c p then HasPrefix s' prefix' else false
  end.

(** [strings.Index s substr]: the position of the first occurrence of
    [substr] in [s]; [None] stands for Go's [-1]. *)
Fixpoint Index (s substr : string) : option nat :=
  if HasPrefix s substr then Some 0
  else match s with
       | EmptyString => None
       | String _ s' => S <$> Index s' substr
       end.

(** The slices [s[:n]] and [s[n:]]. *)
Fixpoint to (n : nat) (s : string) : string :=
  match n, s with
  | S n', String c s' => String c (to n' s')
  | _, _ => EmptyString
  end.

Fixpoint from (n : nat) (s : string) : string :=
  match n, s with
  | S n', String _ s' => from n' s'
  | _, _ => s
  end.

(** [strings.HasSuffix s suffix]. *)
Definition HasSuffix (s suffix : string) : bool :=
  (String.length suffix <=? String.length s)%nat
  && String.eqb (from (String.length s - String.length suffix) s) suffix.

(** [strings.Split s sep] for a separator of one byte, the only kind the
    package passes. [Split "" sep] is [[""]], as in Go. *)
Fixpoint Split (s : string) (sep : ascii) : list string :=
  match s with
  | EmptyString => [EmptyString]
  | String c s' =>
      if Ascii.eqb c sep then EmptyString :: Split s' sep
      else match Split s' sep with
           | seg :: segs => String c seg :: segs
           | [] => [String c EmptyString]
           end
  end.

End strings.

(** ** Values

    What an [interface{}] can hold here. The decoder is set to [UseNumber],
    so a JSON number arrives as a [json.Number], the literal text of the
    number. A [Transformer] may hand back a value of any Go type; the only
    thing done with it is to print it, so such a value is carried as its
    type name and the text [fmt] prints for it by default ([%v], which for
    a float64 is [%g]). *)

#[warnings="-register-all"]
Inductive value : Type :=
| VNil                                   (* nil: JSON null, or nothing found *)
| VBool (b : bool)
| VString (s : string)
| VNumber (n : string)                   (* json.Number *)
| VArray (l : list value)                (* []interface{} *)
| VMap (m : gmap string value)           (* map[string]interface{} *)
| VOther (ty : string) (text : string).  (* float64, int, ..., and the rest *)

(** A decoded JSON object. *)
Abbreviation record := (gmap string value).

(** [fmt]'s [%T]. *)
Definition typeName (v : value) : string :=
  match v with
  | VNil => "<nil>"
  | VBool _ => "bool"
  | VString _ => "string"
  | VNumber _ => "json.Number"
  | VArray _ => "[]interface {}"
  | VMap _ => "map[string]interface {}"
  | VOther ty _ => ty
  end.

Definition key_le (a b : string * string) : Prop := String.leb a.1 b.1 = true.

#[local] Instance key_le_dec a b : Decision (key_le a b).
Proof. unfold key_le. apply _. Defined.

(** [fmt.Sprintf("%v", v)]: a slice prints as [[a b c]], a map as
    [map[k:v k:v]] with its keys in increasing order, nil as [<nil>]. *)
Fixpoint sprint (v : value) : string :=
  match v with
  | VNil => "<nil>"
  | VBool b => if b then "true" else "false"
  | VString s => s
  | VNumber n => n
  | VArray l => "[" ++ String.concat " " (List.map sprint l) ++ "]"
  | VMap m =>
      "map["
      ++ String.concat " "
           (List.map (fun kv => kv.1 ++ ":" ++ kv.2)
              (merge_sort key_le (map_to_list (sprint <$> m))))
      ++ "]"
  | VOther _ text => text
  end.

(** ** utils.go *)

(** [valueToString]: the text of a CSV cell. The cases float64 ([%g]) and
    int, ..., complex128 ([%v]) of the source are values of [VOther], which
    carry that text; a [bool] prints with [%t]; slices, maps and the
    remaining types fall to the default case, [%v]. *)
Definition valueToString (v : value) : string :=
  match v with
  | VNil => ""
  | VString s => s
  | VOther _ text => text
  | VBool b => if b then "true" else "false"
  | VNumber n => n
  | VArray _ | VMap _ => sprint v
  end.

(** The tokens of [json.Decoder.Token]: a delimiter or a basic value
    (bool, json.Number, string, nil). *)
Inductive Delim : Type := LBracket | RBracket | LBrace | RBrace.

Inductive Token : Type :=
| TDelim (d : Delim)
| TValue (v : value).

(** Errors. Each constructor is one [return] of an error in the package;
    a [cause] is the message of an error that comes from outside it. *)
Definition cause := string.

Inductive error : Type :=
| ErrEmptyKey (index : nat)
    (* "invalid dot path segment (empty key) at index %d" *)
| ErrWriteHeader (c : cause)
| ErrInitialToken (c : cause)
| ErrExpectedArrayStart (got : Token)
| ErrFlatteningRequired
    (* "flattening is the only supported mode. At least one Field
        JSONPath must contain '[*]'" *)
| ErrDecodeObject (c : cause)
| ErrGetArray (path : string) (e : error)
| ErrNotArray (path : string) (ty : string)
| ErrElementNotObject (path : string) (index : nat) (ty : string)
| ErrItemValue (jsonPath pathAfterStar : string) (e : error)
| ErrRecordValue (jsonPath : string) (e : error)
| ErrTransform (jsonPath : string) (c : cause)
| ErrWriteRow (c : cause)
| ErrUnexpectedEOF
| ErrFinalToken (c : cause)
| ErrExpectedArrayEnd (got : Token).

Inductive res (A : Type) : Type :=
| Ok (a : A)
| Err (e : error).
Arguments Ok {A} a.
Arguments Err {A} e.

(** ** types.go *)

(** A [Transformer] gets the value found at the field's path and the whole
    original record; it returns a value and an error (nil: [None]). *)
Definition Transformer : Type := value -> record -> value * option cause.

Record Field : Type := {
  JSONPath : string;
  CSVHeader : string;
  FieldTransformer : option Transformer   (* None: a nil func *)
}.

Record Options : Type := {
  Fields : list Field;
  Delimiter : Z;
  AddHeader : bool
}.

(** [const DefaultDelimiter = ','] *)
Definition DefaultDelimiter : Z := 44.

Definition BoolToYesNo : Transformer := fun v _ =>
  match v with
  | VNil => (VString "", None)
  | VBool b => if b then (VString "Yes", None) else (VString "No", None)
  | _ => (v, None)
  end.

Definition ItemsSummaryTransformer : Transformer := fun v _ =>
  match v with
  | VNil => (VString "Null Array", None)
  | VArray items =>
      if (length items =? 0)%nat then (VString "Empty Array", None)
      else (VString (pretty (length items) ++ " Items"), None)
  | _ => (VString ("Unexpected Type: " ++ typeName v), None)
  end.

(** The marker of the array to flatten. *)
Definition marker : string := "[*]".

(** [getFlattenArrayPath]: the text before the first marker of the first
    field that has one, less one trailing dot; [""] when no field has a
    marker. *)
Fixpoint getFlattenArrayPath (fields : list Field) : string :=
  match fields with
  | [] => ""
  | field :: fields' =>
      match strings.Index (JSONPath field) marker with
      | Some starIndex =>
          let basePath := strings.to starIndex (JSONPath field) in
          if strings.HasSuffix basePath "."
          then strings.to (String.length basePath - 1) basePath
          else basePath
      | None => getFlattenArrayPath fields'
      end
  end.

(** The loop of [getValueByDotPath] over [keys[i:]]; [n] is [len(keys)].
    A value that is neither a map nor nil stops the walk only when
    [i < len(keys)-1]; at the last key the loop leaves [currentValue] as it
    is and runs out. *)
Fixpoint walkKeys (keys : list string) (i n : nat) (currentValue : value) : res value :=
  match keys with
  | [] => Ok currentValue
  | key :: keys' =>
      if String.eqb key "" then Err (ErrEmptyKey i)
      else match currentValue with
           | VMap m =>
               match m !! key with
               | None => Ok VNil
               | Some nextValue => walkKeys keys' (S i) n nextValue
               end
           | VNil => Ok VNil
           | _ =>
               if (i <? n - 1)%nat then Ok VNil
               else walkKeys keys' (S i) n currentValue
           end
  end.

(** [getValueByDotPath data path]. *)
Definition getValueByDotPath (data : record) (path : string) : res value :=
  if String.eqb path "" then Ok (VMap data)
  else
    let keys := strings.Split path "." in
    walkKeys keys 0 (length keys) (VMap data).

(** ** The collaborators: [json.Decoder] and [csv.Writer] *)

(** The input, as the decoder meets it, white space and the commas between
    array elements apart: a delimiter read on its own, the text of one
    complete JSON value, or bytes that are no JSON at all. The end of the
    list is the end of the input. A top-level array can be written
    [PValue (VArray l)] or, delimiter by delimiter,
    [PDelim LBracket :: ... ++ [PDelim RBracket]]; the second form also
    writes an array that is cut short. *)
Inductive piece : Type :=
| PDelim (d : Delim)
| PValue (v : value)
| PBad (msg : cause).

Record Decoder : Type := {
  tokenStack : list Delim;   (* the arrays and objects Token has entered *)
  input : list piece
}.

Definition NewDecoder (r : list piece) : Decoder :=
  {| tokenStack := []; input := r |}.

Inductive tokenResult : Type :=
| TokOk (t : Token) (dec : Decoder)
| TokEOF                         (* err == io.EOF *)
| TokErr (c : cause).

(** [Decoder.Token]: the next token. It steps into an array or an object
    (whose keys and values then follow as tokens) and accepts a closing
    delimiter only for what it has entered. The text of the error for a
    delimiter out of place is the one the decoder has where a value may
    begin; after an element of an array it words it "after array
    element". *)
Definition Decoder_Token (dec : Decoder) : tokenResult :=
  match input dec with
  | [] => TokEOF
  | PBad msg :: _ => TokErr msg
  | PDelim LBracket :: rest =>
      TokOk (TDelim LBracket) {| tokenStack := LBracket :: tokenStack dec; input := rest |}
  | PDelim LBrace :: rest =>
      TokOk (TDelim LBrace) {| tokenStack := LBrace :: tokenStack dec; input := rest |}
  | PDelim RBracket :: rest =>
      match tokenStack dec with
      | LBracket :: st => TokOk (TDelim RBracket) {| tokenStack := st; input := rest |}
      | _ => TokErr "invalid character ']' looking for beginning of value"
      end
  | PDelim RBrace :: rest =>
      match tokenStack dec with
      | LBrace :: st => TokOk (TDelim RBrace) {| tokenStack := st; input := rest |}
      | _ => TokErr "invalid character '}' looking for beginning of value"
      end
  | PValue (VArray l) :: rest =>
      TokOk (TDelim LBracket)
        {| tokenStack := LBracket :: tokenStack dec;
           input := List.map PValue l ++ PDelim RBracket :: rest |}
  | PValue (VMap m) :: rest =>
      TokOk (TDelim LBrace)
        {| tokenStack := LBrace :: tokenStack dec;
           input := flat_map (fun kv => [PValue (VString kv.1); PValue kv.2]) (map_to_list m)
                    ++ PDelim RBrace :: rest |}
  | PValue v :: rest =>
      TokOk (TValue v) {| tokenStack := tokenStack dec; input := rest |}
  end.

(** [Decoder.More]: is there another element before the closing delimiter?
    False at [']'], at ['}'] and at the end of the input. *)
Definition morePiece (p : piece) : bool :=
  match p with
  | PDelim RBracket | PDelim RBrace => false
  | _ => true
  end.

Definition Decoder_More (dec : Decoder) : bool :=
  match input dec with
  | [] => false
  | p :: _ => morePiece p
  end.

(** The name of the kind of a JSON value in the decoder's type errors. *)
Definition jsonKind (v : value) : string :=
  match v with
  | VNil => "null"
  | VBool _ => "bool"
  | VString _ => "string"
  | VNumber _ => "number"
  | VArray _ => "array"
  | VMap _ => "object"
  | VOther ty _ => ty
  end.

(** [Decoder.Decode(&originalRecord)] with [originalRecord] a fresh nil
    [map[string]interface{}]: an object fills the map, [null] leaves it
    nil, any other value is a type error. A delimiter on its own where a
    value must start opens a value that is not a complete object. *)
Definition decodePiece (p : piece) : res record :=
  match p with
  | PValue (VMap m) => Ok m
  | PValue VNil => Ok ∅
  | PValue v =>
      Err (ErrDecodeObject
             ("json: cannot unmarshal " ++ jsonKind v
              ++ " into Go value of type map[string]interface {}"))
  | PDelim _ => Err (ErrDecodeObject "unexpected EOF")
  | PBad msg => Err (ErrDecodeObject msg)
  end.

Definition Decoder_Decode (dec : Decoder) : res (record * Decoder) :=
  match input dec with
  | [] => Err (ErrDecodeObject "EOF")
  | p :: rest =>
      match decodePiece p with
      | Ok m => Ok (m, {| tokenStack := tokenStack dec; input := rest |})
      | Err e => Err e
      end
  end.

(** A [csv.Writer] over a destination that takes every write (a
    [bytes.Buffer], say): its delimiter and the rows it has accepted, which
    the deferred [Flush] hands to the destination however [Convert]
    returns. *)
Record Writer : Type := {
  Comma : Z;
  written : list (list string)
}.

(** [csv.NewWriter(w)] *)
Definition NewWriter : Writer := {| Comma := 44; written := [] |}.

Definition setComma (w : Writer) (r : Z) : Writer :=
  {| Comma := r; written := written w |}.

(** [validDelim] of encoding/csv: not NUL, not a quote, not a line break,
    a valid rune, not U+FFFD. *)
Definition validDelim (r : Z) : bool :=
  negb (r =? 0)%Z && negb (r =? 34)%Z && negb (r =? 13)%Z && negb (r =? 10)%Z
  && ((0 <=? r)%Z && (r <? 55296)%Z || (57343 <? r)%Z && (r <=? 1114111)%Z)
  && negb (r =? 65533)%Z.

(** [Writer.Write(record)] *)
Definition Writer_Write (w : Writer) (row : list string) : Writer * option cause :=
  if validDelim (Comma w)
  then ({| Comma := Comma w; written := written w ++ [row] |}, None)
  else (w, Some "csv: invalid field or comment delimiter").

(** ** convert.go *)

(** The loop that turns the array into [itemsToProcess]: objects are kept,
    nulls are skipped, anything else is an error that names its index. *)
Fixpoint collectItems (flattenArrayPath : string) (arr : list value) (i : nat)
  : res (list record) :=
  match arr with
  | [] => Ok []
  | item :: arr' =>
      match item with
      | VMap itemMap =>
          match collectItems flattenArrayPath arr' (S i) with
          | Ok items => Ok (itemMap :: items)
          | Err e => Err e
          end
      | VNil => collectItems flattenArrayPath arr' (S i)
      | _ => Err (ErrElementNotObject flattenArrayPath i (typeName item))
      end
  end.

(** The text after the marker, less one leading dot. *)
Definition pathAfterStar (jsonPath : string) (starIndex : nat) : string :=
  let after := strings.from (starIndex + String.length marker) jsonPath in
  if strings.HasPrefix after "." then strings.from 1 after else after.

(** The value of one field for one item: from the item when the path has a
    marker, from the original record when it has none. *)
Definition fieldValue (field : Field) (originalRecord itemData : record) : res value :=
  match strings.Index (JSONPath field) marker with
  | Some starIndex =>
      let after := pathAfterStar (JSONPath field) starIndex in
      match getValueByDotPath itemData after with
      | Err e => Err (ErrItemValue (JSONPath field) after e)
      | Ok v => Ok v
      end
  | None =>
      match getValueByDotPath originalRecord (JSONPath field) with
      | Err e => Err (ErrRecordValue (JSONPath field) e)
      | Ok v => Ok v
      end
  end.

(** One cell: the value, through the transformer if there is one, as text. *)
Definition cell (field : Field) (originalRecord itemData : record) : res string :=
  match fieldValue field originalRecord itemData with
  | Err e => Err e
  | Ok v =>
      match FieldTransformer field with
      | Some transform =>
          let '(transformedValue, transformErr) := transform v originalRecord in
          match transformErr with
          | Some c => Err (ErrTransform (JSONPath field) c)
          | None => Ok (valueToString transformedValue)
          end
      | None => Ok (valueToString v)
      end
  end.

(** [csvRow], field by field; the first error ends it. *)
Fixpoint buildRow (fields : list Field) (originalRecord itemData : record)
  : res (list string) :=
  match fields with
  | [] => Ok []
  | field :: fields' =>
      match cell field originalRecord itemData with
      | Err e => Err e
      | Ok c =>
          match buildRow fields' originalRecord itemData with
          | Err e => Err e
          | Ok cs => Ok (c :: cs)
          end
      end
  end.

(** The loop over [itemsToProcess]: a row is built and written for each
    item; rows already written stay when a later one fails. *)
Fixpoint writeItems (fields : list Field) (originalRecord : record)
    (itemsToProcess : list record) (csvWriter : Writer) : Writer * option error :=
  match itemsToProcess with
  | [] => (csvWriter, None)
  | itemData :: items' =>
      match buildRow fields originalRecord itemData with
      | Err e => (csvWriter, Some e)
      | Ok csvRow =>
          match Writer_Write csvWriter csvRow with
          | (_, Some c) => (csvWriter, Some (ErrWriteRow c))
          | (csvWriter', None) => writeItems fields originalRecord items' csvWriter'
          end
      end
  end.

(** The body of the loop over the records, after the decode. [None] is
    both [continue] and the end of the body. *)
Definition processRecord (fields : list Field) (flattenArrayPath : string)
    (originalRecord : record) (csvWriter : Writer) : Writer * option error :=
  match getValueByDotPath originalRecord flattenArrayPath with
  | Err e => (csvWriter, Some (ErrGetArray flattenArrayPath e))
  | Ok arrayValue =>
      match arrayValue with
      | VNil => (csvWriter, None)
      | VArray arr =>
          match collectItems flattenArrayPath arr 0 with
          | Err e => (csvWriter, Some e)
          | Ok itemsToProcess =>
              if (length itemsToProcess =? 0)%nat then (csvWriter, None)
              else writeItems fields originalRecord itemsToProcess csvWriter
          end
      | _ => (csvWriter, Some (ErrNotArray flattenArrayPath (typeName arrayValue)))
      end
  end.

(** [for decoder.More() { ... }], by recursion on the input that is left:
    every turn decodes one piece. It returns the decoder as the loop leaves
    it. *)
Fixpoint processRecords (fields : list Field) (flattenArrayPath : string)
    (tokens : list Delim) (rest : list piece) (csvWriter : Writer)
  : Writer * res Decoder :=
  match rest with
  | [] => (csvWriter, Ok {| tokenStack := tokens; input := [] |})
  | p :: rest' =>
      if morePiece p then
        match decodePiece p with
        | Err e => (csvWriter, Err e)
        | Ok originalRecord =>
            match processRecord fields flattenArrayPath originalRecord csvWriter with
            | (csvWriter', Some e) => (csvWriter', Err e)
            | (csvWriter', None) =>
                processRecords fields flattenArrayPath tokens rest' csvWriter'
            end
        end
      else (csvWriter, Ok {| tokenStack := tokens; input := rest |})
  end.

(** [Convert r w options]: the writer, with the rows handed to [w], and the
    error. In the order of the source: the test on the delimiter, the
    writer, the header, the first token, the flatten path and the check
    that there is one, the loop over the records, the closing token. The
    test [err != nil] that follows [getFlattenArrayPath] in the source can
    not fire, [err] being nil there; the last [Flush] and [Error] have
    nothing to report on a destination that takes every write. *)
Definition Convert (r : list piece) (options : Options) : Writer * option error :=
  let options :=
    if (Delimiter options =? 44)%Z
    then {| Fields := Fields options; Delimiter := DefaultDelimiter;
            AddHeader := AddHeader options |}
    else options in
  let csvWriter := setComma NewWriter (Delimiter options) in
  let addHeader := if Bool.eqb (AddHeader options) false then false else true in
  match (if addHeader
         then Writer_Write csvWriter (List.map CSVHeader (Fields options))
         else (csvWriter, None)) with
  | (_, Some c) => (csvWriter, Some (ErrWriteHeader c))
  | (csvWriter, None) =>
      let decoder := NewDecoder r in
      match Decoder_Token decoder with
      | TokEOF => (csvWriter, None)
      | TokErr c => (csvWriter, Some (ErrInitialToken c))
      | TokOk (TDelim LBracket) decoder =>
          let flattenArrayPath := getFlattenArrayPath (Fields options) in
          let isFlattening := negb (String.eqb flattenArrayPath "") in
          if negb isFlattening then (csvWriter, Some ErrFlatteningRequired)
          else
            match processRecords (Fields options) flattenArrayPath
                    (tokenStack decoder) (input decoder) csvWriter with
            | (csvWriter, Err e) => (csvWriter, Some e)
            | (csvWriter, Ok decoder) =>
                match Decoder_Token decoder with
                | TokEOF => (csvWriter, Some ErrUnexpectedEOF)
                | TokErr c => (csvWriter, Some (ErrFinalToken c))
                | TokOk (TDelim RBracket) _ => (csvWriter, None)
                | TokOk token _ => (csvWriter, Some (ErrExpectedArrayEnd token))
                end
            end
      | TokOk token _ => (csvWriter, Some (ErrExpectedArrayStart token))
      end
  end.

(** ** Definitions for the statements and the examples *)

(** [sub] occurs in [s]. *)
Definition occursIn (sub s : string) : Prop :=
  exists pre post : string, s = pre ++ sub ++ post.

(** A path has the marker. *)
Definition hasMarker (path : string) : Prop := occursIn marker path.

(** The rows in the output once the header step is over. *)
Definition headerRows (options : Options) : list (list string) :=
  if AddHeader options then [List.map CSVHeader (Fields options)] else [].

(** The header step goes through: there is no header to write, or the
    writer accepts the delimiter. *)
Definition headerAccepted (options : Options) : Prop :=
  AddHeader options = false \/ validDelim (Delimiter options) = true.

(** What [Convert] does once the header step is over and the first token
    has been read as ['[']. *)
Definition afterArrayStart (fields : list Field) (decoder : Decoder) (csvWriter : Writer)
  : Writer * option error :=
  let flattenArrayPath := getFlattenArrayPath fields in
  if String.eqb flattenArrayPath "" then (csvWriter, Some ErrFlatteningRequired)
  else
    match processRecords fields flattenArrayPath
            (tokenStack decoder) (input decoder) csvWriter with
    | (csvWriter, Err e) => (csvWriter, Some e)
    | (csvWriter, Ok decoder) =>
        match Decoder_Token decoder with
        | TokEOF => (csvWriter, Some ErrUnexpectedEOF)
        | TokErr c => (csvWriter, Some (ErrFinalToken c))
        | TokOk (TDelim RBracket) _ => (csvWriter, None)
        | TokOk token _ => (csvWriter, Some (ErrExpectedArrayEnd token))
        end
    end.

(** What [Convert] does once the header step is over. *)
Definition afterHeader (r : list piece) (fields : list Field) (csvWriter : Writer)
  : Writer * option error :=
  match Decoder_Token (NewDecoder r) with
  | TokEOF => (csvWriter, None)
  | TokErr c => (csvWriter, Some (ErrInitialToken c))
  | TokOk (TDelim LBracket) decoder => afterArrayStart fields decoder csvWriter
  | TokOk token _ => (csvWriter, Some (ErrExpectedArrayStart token))
  end.

(** A field with no transformer. *)
Definition plain (jsonPath csvHeader : string) : Field :=
  {| JSONPath := jsonPath; CSVHeader := csvHeader; FieldTransformer := None |}.

(** The object with the given members. *)
Definition object (members : list (string * value)) : value :=
  VMap (list_to_map members).

Definition optionsC1 : Options :=
  {| Fields := [plain "id" "ID"; plain "user.name" "Name"];
     Delimiter := 44; AddHeader := true |}.

(** The input [[{"id":1}]]. *)
Definition inputC1 : list piece :=
  [PValue (VArray [object [("id", VNumber "1")]])].

(** The writer [w] with [rows] more. *)
Definition withRows (w : Writer) (rows : list (list string)) : Writer :=
  {| Comma := Comma w; written := written w ++ rows |}.

(** The data rows of a conversion and the way it ends: what [Convert]
    writes to a new writer once the header step is over. *)
Definition dataRows (r : list piece) (fields : list Field)
  : list (list string) * option error :=
  let '(w0, e) := afterHeader r fields NewWriter in (written w0, e).

(** The input [[{"id":1,"tags":["x","y"]}]]. *)
Definition inputC2 : list piece :=
  [PValue (VArray [object [("id", VNumber "1");
                           ("tags", VArray [VString "x"; VString "y"])]])].

(** The input [[{"id":1,"tags":[{"name":"x"},{"name":"y"}]}]]. *)
Definition inputC2_objects : list piece :=
  [PValue (VArray [object [("id", VNumber "1");
                           ("tags", VArray [object [("name", VString "x")];
                                            object [("name", VString "y")]])]])].

(** The input [[{"items":[{"name":"a"}]}]]. *)
Definition inputC4 : list piece :=
  [PValue (VArray [object [("items", VArray [object [("name", VString "a")]])]])].

(** The input begins with an array. *)
Definition startsArray (r : list piece) : bool :=
  match r with
  | PDelim LBracket :: _ | PValue (VArray _) :: _ => true
  | _ => false
  end.

(** The errors that say the input is not what it has to be: the top-level
    value is not an array, the array is not closed, an element does not
    decode into an object. *)
Definition isFormatError (e : error) : bool :=
  match e with
  | ErrInitialToken _ | ErrExpectedArrayStart _ | ErrDecodeObject _
  | ErrUnexpectedEOF | ErrFinalToken _ | ErrExpectedArrayEnd _ => true
  | _ => false
  end.

(** The container [{"a":"x"}]. *)
Definition dataC6 : record := {[ "a" := VString "x" ]}.

(** The input [[{"a":"x","items":[{}]}]]. *)
Definition inputC6 : list piece :=
  [PValue (VArray [object [("a", VString "x"); ("items", VArray [object []])]])].

(** The record [{"items":[{"price":5.00,"quantity":3}]}]. *)
Definition recordC7 : record :=
  list_to_map
    [("items", VArray [object [("price", VNumber "5.00"); ("quantity", VNumber "3")]])].

(** The record [{"id":1,"items":[null,null]}]. *)
Definition recordC8 : record :=
  list_to_map [("id", VNumber "1"); ("items", VArray [VNil; VNil])].

(** The record [{"id":1,"items":[{"name":"a"},null,{"name":"c"}]}]. *)
Definition recordC9 : record :=
  list_to_map [("id", VNumber "1");
               ("items", VArray [object [("name", VString "a")]; VNil;
                                 object [("name", VString "c")]])].

(** The record [{"flag":null,"items":[{"name":"a"}]}]. *)
Definition recordC10 : record :=
  list_to_map [("flag", VNil); ("items", VArray [object [("name", VString "a")]])].

Definition fieldsC10 : list Field :=
  [plain "items[*].name" "Name";
   {| JSONPath := "flag"; CSVHeader := "Flag";
      FieldTransformer := Some ItemsSummaryTransformer |};
   {| JSONPath := "missing.key"; CSVHeader := "Missing";
      FieldTransformer := Some ItemsSummaryTransformer |}].

(** The fields [id] and [items[*].name], a comma, the header on. *)
Definition optionsItems : Options :=
  {| Fields := [plain "id" "id"; plain "items[*].name" "name"];
     Delimiter := 44; AddHeader := true |}.

(** ** utils.go: [getValueForField], the helper that nothing calls *)

(** The two errors of [getValueForField], each around the resolver's. *)
Inductive fieldError : Type :=
| ErrFromItem (effectivePath jsonPath : string) (e : error)
    (* "failed to get value from array item at path %q (original: %q): %w" *)
| ErrFromRecord (jsonPath : string) (e : error).
    (* "failed to get value from record at path %q: %w" *)

Inductive fieldRes : Type :=
| FieldOk (v : value)
| FieldErr (e : fieldError).

(** [getValueForField field data originalRecord]: [data] is the item when
    the path has a marker and the record when it has none; the body makes
    no use of [originalRecord]. *)
Definition getValueForField (field : Field) (data originalRecord : record) : fieldRes :=
  let effectivePath := JSONPath field in
  match strings.Index (JSONPath field) marker with
  | Some starIndex =>
      let effectivePath :=
        strings.from (starIndex + String.length marker) (JSONPath field) in
      let effectivePath :=
        if strings.HasPrefix effectivePath "." then strings.from 1 effectivePath
        else effectivePath in
      if String.eqb effectivePath "" then FieldOk (VMap data)
      else
        match getValueByDotPath data effectivePath with
        | Err e => FieldErr (ErrFromItem effectivePath (JSONPath field) e)
        | Ok v => FieldOk v
        end
  | None =>
      match getValueByDotPath data effectivePath with
      | Err e => FieldErr (ErrFromRecord (JSONPath field) e)
      | Ok v => FieldOk v
      end
  end.

(** ** More definitions for the statements *)

(** What the resolver's loop comes to, told by the keys alone: a map is
    entered by its key, nil and an absent key give nil, and a value that
    is neither map nor nil gives nil unless the key in hand is the last,
    in which case the value itself comes back. *)
Fixpoint resolve (keys : list string) (v : value) : value :=
  match keys with
  | [] => v
  | key :: keys' =>
      match v with
      | VMap m =>
          match m !! key with
          | Some v' => resolve keys' v'
          | None => VNil
          end
      | VNil => VNil
      | _ => match keys' with [] => v | _ :: _ => VNil end
      end
  end.

(** The index of an empty key, one further on. *)
Definition shiftIndex (r : res value) : res value :=
  match r with
  | Err (ErrEmptyKey i) => Err (ErrEmptyKey (S i))
  | _ => r
  end.

(** The path the resolver is given for a field: what follows the marker,
    or the whole JSONPath. *)
Definition effectivePath (field : Field) : string :=
  match strings.Index (JSONPath field) marker with
  | Some starIndex => pathAfterStar (JSONPath field) starIndex
  | None => JSONPath field
  end.

(** A path the resolver can not fail on: empty, or with no empty key. *)
Definition wellFormedPath (path : string) : Prop :=
  path = "" \/ Forall (fun key => key <> "") (strings.Split path ".").

(** A field with no transformer and a path the resolver can not fail on. *)
Definition plainWellFormed (field : Field) : Prop :=
  FieldTransformer field = None /\ wellFormedPath (effectivePath field).

(** The objects of an array, in their order. *)
Fixpoint objects (arr : list value) : list record :=
  match arr with
  | [] => []
  | VMap m :: arr' => m :: objects arr'
  | _ :: arr' => objects arr'
  end.

(** The errors that come from a cell: the resolver's, on a path that is
    not written well, and a transformer's. *)
Definition isCellError (e : error) : bool :=
  match e with
  | ErrItemValue _ _ _ | ErrRecordValue _ _ | ErrTransform _ _ => true
  | _ => false
  end.

(** The value of a result, if it has one. *)
Definition valueOf (r : res value) : option value :=
  match r with Ok v => Some v | Err _ => None end.

Definition fieldValueOf (r : fieldRes) : option value :=
  match r with FieldOk v => Some v | FieldErr _ => None end.

(** The objects a record has at the flatten path: those of the array
    there, none when there is no array. *)
Definition recordObjects (flattenArrayPath : string) (originalRecord : record)
  : list record :=
  match getValueByDotPath originalRecord flattenArrayPath with
  | Ok (VArray arr) => objects arr
  | _ => []
  end.

(** A record is well shaped: at the flatten path it has nil, or an array
    of objects and nulls. *)
Definition wellShaped (flattenArrayPath : string) (originalRecord : record) : Prop :=
  getValueByDotPath originalRecord flattenArrayPath = Ok VNil
  \/ exists arr,
      getValueByDotPath originalRecord flattenArrayPath = Ok (VArray arr)
      /\ Forall (fun item => item = VNil \/ exists m, item = VMap m) arr.

(** The pairs of a record and one of its objects, in the order of the
    input: one for each data row. *)
Definition rowSources (flattenArrayPath : string) (records : list record)
  : list (record * record) :=
  flat_map (fun originalRecord =>
              List.map (pair originalRecord)
                (recordObjects flattenArrayPath originalRecord))
    records.

(** The fields [a.b] and [c.b], each with [ItemsSummaryTransformer], and
    [items[*].n]. *)
Definition fieldsC10_unresolvable : list Field :=
  [{| JSONPath := "a.b"; CSVHeader := "AB";
      FieldTransformer := Some ItemsSummaryTransformer |};
   {| JSONPath := "c.b"; CSVHeader := "CB";
      FieldTransformer := Some ItemsSummaryTransformer |};
   plain "items[*].n" "N"].

(** * Properties *)

(** ** Strings *)

(** The shortcut of [HasPrefix]'s first line, whatever [s] is. *)
Lemma HasPrefix_nil (s : string) : strings.HasPrefix s "" = true.
Proof. by destruct s. Qed.

Lemma HasPrefix_true (s p : string) :
  strings.HasPrefix s p = true <-> exists t : string, s = p ++ t.
Proof.
  revert s. induction p as [|a p IH]; intros s.
  - rewrite HasPrefix_nil. split; [intros _; by exists s | done].
  - destruct s as [|c s]; simpl.
    + split; [done | intros [t Ht]; discriminate].
    + destruct (Ascii.eqb_spec c a) as [->|Hne].
      * rewrite IH. split; intros [t Ht]; exists t; [by rewrite Ht | by injection Ht].
      * split; [done | intros [t Ht]; injection Ht; congruence].
Qed.

Lemma Index_unfold (s sub : string) :
  strings.Index s sub =
  if strings.HasPrefix s sub then Some 0
  else match s with
       | EmptyString => None
       | String _ s' => S <$> strings.Index s' sub
       end.
Proof. by destruct s. Qed.

Lemma Index_Some_occursIn (s sub : string) (n : nat) :
  strings.Index s sub = Some n -> occursIn sub s.
Proof.
  revert n. induction s as [|c s IH]; intros n; rewrite Index_unfold.
  - destruct (strings.HasPrefix "" sub) eqn:Hp; [|done].
    intros _. apply HasPrefix_true in Hp as [t Ht]. by exists "", t.
  - destruct (strings.HasPrefix (String c s) sub) eqn:Hp.
    + intros _. apply HasPrefix_true in Hp as [t Ht]. by exists "", t.
    + destruct (strings.Index s sub) as [m|]; [|done].
      intros _. destruct (IH m eq_refl) as [pre [post Hs]].
      exists (String c pre), post. simpl. by rewrite Hs.
Qed.

Lemma occursIn_Index (s sub : string) :
  occursIn sub s -> is_Some (strings.Index s sub).
Proof.
  intros [pre [post ->]]. induction pre as [|c pre IH]; rewrite Index_unfold.
  - assert (strings.HasPrefix ("" ++ sub ++ post) sub = true) as ->
      by (apply HasPrefix_true; by exists post).
    by eexists.
  - destruct (strings.HasPrefix _ sub); [by eexists|].
    simpl. destruct IH as [m ->]. by eexists.
Qed.

(** [Index] answers [-1] exactly when the substring does not occur. *)
Lemma Index_None (s sub : string) :
  strings.Index s sub = None <-> ~ occursIn sub s.
Proof.
  split.
  - intros Hi Ho. apply occursIn_Index in Ho as [m Hm]. congruence.
  - intros Hn. destruct (strings.Index s sub) as [n|] eqn:Hi; [|done].
    destruct Hn. by eapply Index_Some_occursIn.
Qed.

(** ** The driver, step by step *)

(** [processRecords] is the loop of the source: while [More] says there
    is an element, [Decode] it, process it, and go on from where the
    decoder stands. *)
Lemma processRecords_loop
    (fields : list Field) (flattenArrayPath : string) (decoder : Decoder) (w : Writer) :
  processRecords fields flattenArrayPath (tokenStack decoder) (input decoder) w =
  if Decoder_More decoder then
    match Decoder_Decode decoder with
    | Err e => (w, Err e)
    | Ok (originalRecord, decoder') =>
        match processRecord fields flattenArrayPath originalRecord w with
        | (w', Some e) => (w', Err e)
        | (w', None) =>
            processRecords fields flattenArrayPath
              (tokenStack decoder') (input decoder') w'
        end
    end
  else (w, Ok decoder).
Proof.
  destruct decoder as [tokens [|p rest]]; unfold Decoder_More, Decoder_Decode;
    cbn [processRecords tokenStack input]; [done|].
  destruct (morePiece p); [|done].
  by destruct (decodePiece p).
Qed.

(** The body of the loop either leaves the writer alone (the record is
    passed over, or it is in error before any row), or it is the loop over
    the objects collected from the array at the flatten path. *)
Lemma processRecord_cases
    (fields : list Field) (flattenArrayPath : string) (originalRecord : record) :
  (exists o, forall w,
      processRecord fields flattenArrayPath originalRecord w = (w, o))
  \/ (exists arr items,
        getValueByDotPath originalRecord flattenArrayPath = Ok (VArray arr)
        /\ collectItems flattenArrayPath arr 0 = Ok items
        /\ forall w, processRecord fields flattenArrayPath originalRecord w
                     = writeItems fields originalRecord items w).
Proof.
  unfold processRecord.
  destruct (getValueByDotPath originalRecord flattenArrayPath)
    as [[| | | |arr| |]|err]; try (left; by eexists).
  destruct (collectItems flattenArrayPath arr 0) as [items|err] eqn:Hcollect;
    [|left; by eexists].
  destruct (length items =? 0)%nat; [left; by eexists|].
  right. by exists arr, items.
Qed.

(** The test on the delimiter changes nothing: [','] is replaced by
    [DefaultDelimiter], which is [',']. *)
Lemma Convert_header_failed (r : list piece) (options : Options) :
  AddHeader options = true -> validDelim (Delimiter options) = false ->
  Convert r options =
  ({| Comma := Delimiter options; written := [] |},
   Some (ErrWriteHeader "csv: invalid field or comment delimiter")).
Proof.
  intros Hh Hv. unfold Convert.
  destruct (Z.eqb_spec (Delimiter options) 44) as [He|He].
  - rewrite He in Hv. discriminate.
  - rewrite Hh. simpl. unfold Writer_Write, setComma. simpl. by rewrite Hv.
Qed.

Lemma Convert_header_done (r : list piece) (options : Options) :
  headerAccepted options ->
  Convert r options =
  afterHeader r (Fields options)
    {| Comma := Delimiter options; written := headerRows options |}.
Proof.
  intros Hacc.
  assert (AddHeader options = true -> validDelim (Delimiter options) = true) as Hv
    by (by destruct Hacc as [->|]).
  unfold Convert, headerRows, afterHeader, afterArrayStart.
  destruct (Z.eqb_spec (Delimiter options) 44) as [He|He]; simpl;
    [unfold DefaultDelimiter; rewrite <- He|];
    (destruct (AddHeader options) eqn:Hh; simpl;
     unfold Writer_Write, setComma; simpl; [rewrite Hv by done|]);
    destruct (Decoder_Token (NewDecoder r)) as [[[]|?] ?| |?]; try done;
    by destruct (String.eqb (getFlattenArrayPath (Fields options)) "").
Qed.

(** The first token is ['['] exactly when the input begins with an array. *)
Lemma startsArray_Token (r : list piece) :
  startsArray r = true <->
  exists decoder, Decoder_Token (NewDecoder r) = TokOk (TDelim LBracket) decoder.
Proof.
  unfold Decoder_Token, NewDecoder. simpl.
  destruct r as [|[[]|[]|] r]; simpl; split; try done; try (intros [? ?]; done);
    intros _; by eexists.
Qed.

(** ** The flatten-target detector *)

Lemma getFlattenArrayPath_no_marker (fields : list Field) :
  Forall (fun field => ~ hasMarker (JSONPath field)) fields ->
  getFlattenArrayPath fields = "".
Proof.
  induction 1 as [|field fields Hno _ IH]; [done|].
  simpl. by apply Index_None in Hno as ->.
Qed.

(** ** C1: no marker in any field *)

(** C1 (as amended): when no field's JSONPath has the marker, the header
    step has gone through and the input begins with an array, so that the
    first token read is ['['], [Convert] fails with the configuration
    error; it has written the header row, if there is one to write, and no
    other row, and nothing of what follows the first token has a part in
    the result. *)
Theorem C1_no_marker_configuration_error (r : list piece) (options : Options) :
  Forall (fun field => ~ hasMarker (JSONPath field)) (Fields options) ->
  headerAccepted options ->
  startsArray r = true ->
  Convert r options =
  ({| Comma := Delimiter options; written := headerRows options |},
   Some ErrFlatteningRequired).
Proof.
  intros Hno Hacc Hstart.
  apply startsArray_Token in Hstart as [decoder Htok].
  rewrite Convert_header_done by done.
  unfold afterHeader. rewrite Htok. unfold afterArrayStart.
  by rewrite getFlattenArrayPath_no_marker.
Qed.

Lemma C1_no_marker_configuration_error_witness :
  Forall (fun field => ~ hasMarker (JSONPath field)) (Fields optionsC1)
  /\ Convert [PDelim LBracket; PValue (VMap recordC9); PDelim RBracket] optionsC1 =
     ({| Comma := 44; written := [["ID"; "Name"]] |}, Some ErrFlatteningRequired).
Proof.
  assert (Forall (fun field => ~ hasMarker (JSONPath field)) (Fields optionsC1)) as Hno
    by (repeat constructor; apply Index_None; reflexivity).
  split; [exact Hno|].
  exact (C1_no_marker_configuration_error
           [PDelim LBracket; PValue (VMap recordC9); PDelim RBracket] optionsC1 Hno
           (or_intror eq_refl) eq_refl).
Defined.

(** C1 as the specification has it fails: with no marker in any field,
    the header row has been written when [Convert] reports the
    configuration error. *)
Lemma C1_counterexample :
  Forall (fun field => ~ hasMarker (JSONPath field)) (Fields optionsC1)
  /\ (Convert inputC1 optionsC1).2 = Some ErrFlatteningRequired
  /\ written (Convert inputC1 optionsC1).1 = [["ID"; "Name"]]
  /\ written (Convert inputC1 optionsC1).1 <> [].
Proof.
  split; [|done].
  repeat constructor; apply Index_None; reflexivity.
Qed.

(** On an input with nothing in it the check is not reached: no error. *)
Example no_marker_empty_input :
  Convert [] optionsC1 = ({| Comma := 44; written := [["ID"; "Name"]] |}, None).
Proof. reflexivity. Qed.

(** ** The writer: what is written does not depend on what was there *)

Lemma withRows_nil (w : Writer) : withRows w [] = w.
Proof. destruct w. unfold withRows. simpl. by rewrite app_nil_r. Qed.

Lemma withRows_app (w : Writer) (rows rows' : list (list string)) :
  withRows (withRows w rows) rows' = withRows w (rows ++ rows').
Proof. unfold withRows. simpl. by rewrite app_assoc. Qed.

Lemma Writer_Write_valid (w : Writer) (row : list string) :
  validDelim (Comma w) = true -> Writer_Write w row = (withRows w [row], None).
Proof. intros Hv. unfold Writer_Write. by rewrite Hv. Qed.

Lemma Writer_Write_invalid (w : Writer) (row : list string) :
  validDelim (Comma w) = false ->
  Writer_Write w row = (w, Some "csv: invalid field or comment delimiter").
Proof. intros Hv. unfold Writer_Write. by rewrite Hv. Qed.

Section Frame.

Variable fields : list Field.
Variable flattenArrayPath : string.

(** With a delimiter the writer accepts, the loops write the rows they
    would write to a new writer, after the rows already there. *)
Lemma writeItems_frame (originalRecord : record) (items : list record) (w : Writer) :
  validDelim (Comma w) = true ->
  writeItems fields originalRecord items w =
  let '(w0, e) := writeItems fields originalRecord items NewWriter in
  (withRows w (written w0), e).
Proof.
  revert w. induction items as [|item items IH]; intros w Hv; cbn [writeItems].
  - by rewrite withRows_nil.
  - destruct (buildRow fields originalRecord item) as [row|e].
    + rewrite !Writer_Write_valid by done.
      rewrite IH by done. rewrite (IH (withRows NewWriter [row])) by done.
      destruct (writeItems fields originalRecord items NewWriter) as [w0 e].
      cbn [written withRows NewWriter app]. by rewrite withRows_app.
    + by rewrite withRows_nil.
Qed.

Lemma writeItems_Comma (originalRecord : record) (items : list record) (w : Writer) :
  Comma (writeItems fields originalRecord items w).1 = Comma w.
Proof.
  revert w. induction items as [|item items IH]; intros w; cbn [writeItems]; [done|].
  destruct (buildRow fields originalRecord item) as [row|e]; [|done].
  unfold Writer_Write. destruct (validDelim (Comma w)); [|done].
  by rewrite IH.
Qed.

Lemma processRecord_frame (originalRecord : record) (w : Writer) :
  validDelim (Comma w) = true ->
  processRecord fields flattenArrayPath originalRecord w =
  let '(w0, e) := processRecord fields flattenArrayPath originalRecord NewWriter in
  (withRows w (written w0), e).
Proof.
  intros Hv.
  destruct (processRecord_cases fields flattenArrayPath originalRecord)
    as [[o Hsame]|[arr [items [_ [_ Hitems]]]]].
  - rewrite !Hsame. by rewrite withRows_nil.
  - rewrite !Hitems. by apply writeItems_frame.
Qed.

Lemma processRecord_Comma (originalRecord : record) (w : Writer) :
  Comma (processRecord fields flattenArrayPath originalRecord w).1 = Comma w.
Proof.
  destruct (processRecord_cases fields flattenArrayPath originalRecord)
    as [[o Hsame]|[arr [items [_ [_ Hitems]]]]].
  - by rewrite Hsame.
  - rewrite Hitems. apply writeItems_Comma.
Qed.

Lemma processRecords_frame (tokens : list Delim) (rest : list piece) (w : Writer) :
  validDelim (Comma w) = true ->
  processRecords fields flattenArrayPath tokens rest w =
  let '(w0, d) := processRecords fields flattenArrayPath tokens rest NewWriter in
  (withRows w (written w0), d).
Proof.
  revert w. induction rest as [|p rest IH]; intros w Hv; simpl.
  - by rewrite withRows_nil.
  - destruct (morePiece p); [|by rewrite withRows_nil].
    destruct (decodePiece p) as [originalRecord|e]; [|by rewrite withRows_nil].
    rewrite processRecord_frame by done.
    pose proof (processRecord_Comma originalRecord NewWriter) as HC.
    destruct (processRecord fields flattenArrayPath originalRecord NewWriter)
      as [w1 [e|]]; [done|].
    simpl in HC. rewrite IH by done. rewrite (IH w1) by (by rewrite HC).
    destruct (processRecords fields flattenArrayPath tokens rest NewWriter) as [w0 d].
    simpl. by rewrite withRows_app.
Qed.

End Frame.

Lemma afterArrayStart_frame (fields : list Field) (decoder : Decoder) (w : Writer) :
  validDelim (Comma w) = true ->
  afterArrayStart fields decoder w =
  let '(w0, e) := afterArrayStart fields decoder NewWriter in
  (withRows w (written w0), e).
Proof.
  intros Hv. unfold afterArrayStart.
  destruct (String.eqb (getFlattenArrayPath fields) ""); [by rewrite withRows_nil|].
  rewrite processRecords_frame by done.
  destruct (processRecords fields (getFlattenArrayPath fields) (tokenStack decoder)
              (input decoder) NewWriter) as [w0 [decoder'|e]]; [|done].
  by destruct (Decoder_Token decoder') as [[[]|?] ?| |?].
Qed.

Lemma afterHeader_frame (fields : list Field) (r : list piece) (w : Writer) :
  validDelim (Comma w) = true ->
  afterHeader r fields w =
  let '(w0, e) := afterHeader r fields NewWriter in
  (withRows w (written w0), e).
Proof.
  intros Hv. unfold afterHeader.
  destruct (Decoder_Token (NewDecoder r)) as [[[]|?] ?| |?];
    rewrite ?withRows_nil; try done.
  by apply afterArrayStart_frame.
Qed.

(** With a delimiter the writer accepts, the output is the header row, if
    asked for, and then the data rows. *)
Lemma Convert_valid (r : list piece) (options : Options) :
  validDelim (Delimiter options) = true ->
  Convert r options =
  ({| Comma := Delimiter options;
      written := headerRows options ++ (dataRows r (Fields options)).1 |},
   (dataRows r (Fields options)).2).
Proof.
  intros Hv. rewrite Convert_header_done by (by right).
  rewrite afterHeader_frame by done. unfold dataRows.
  by destruct (afterHeader r (Fields options) NewWriter) as [w0 e].
Qed.

(** ** C2: scenario A *)

(** C2 (as amended): on [[{"id":1,"tags":["x","y"]}]] with the fields
    [id] and [tags[*]], [Convert] fails: the element at index 0 of the
    array at [tags] is a string, not an object, and no data row is written.
    The elements of the flattened array have to be objects: on
    [[{"id":1,"tags":[{"name":"x"},{"name":"y"}]}]] with the fields [id] and
    [tags[*].name], [Convert] succeeds and writes exactly the two data rows
    ("1","x") and ("1","y"). *)
Theorem C2_flattened_elements_must_be_objects
    (header1 header2 : string) (delimiter : Z) (addHeader : bool) :
  validDelim delimiter = true ->
  let options := fun fields =>
    {| Fields := fields; Delimiter := delimiter; AddHeader := addHeader |} in
  let fieldsA := [plain "id" header1; plain "tags[*]" header2] in
  let fieldsA' := [plain "id" header1; plain "tags[*].name" header2] in
  Convert inputC2 (options fieldsA) =
    ({| Comma := delimiter; written := headerRows (options fieldsA) |},
     Some (ErrElementNotObject "tags" 0 "string"))
  /\ Convert inputC2_objects (options fieldsA') =
    ({| Comma := delimiter;
        written := headerRows (options fieldsA') ++ [["1"; "x"]; ["1"; "y"]] |},
     None).
Proof.
  intros Hv options fieldsA fieldsA'.
  split; rewrite Convert_valid by done; cbn [Delimiter Fields options].
  - assert (dataRows inputC2 fieldsA = ([], Some (ErrElementNotObject "tags" 0 "string")))
      as -> by (by vm_compute).
    cbn [fst snd]. by rewrite app_nil_r.
  - by assert (dataRows inputC2_objects fieldsA' = ([["1"; "x"]; ["1"; "y"]], None))
      as -> by (by vm_compute).
Qed.

Lemma C2_flattened_elements_must_be_objects_witness :
  Convert inputC2
    {| Fields := [plain "id" "id"; plain "tags[*]" "tag"];
       Delimiter := 44; AddHeader := true |} =
    ({| Comma := 44; written := [["id"; "tag"]] |},
     Some (ErrElementNotObject "tags" 0 "string"))
  /\ Convert inputC2_objects
    {| Fields := [plain "id" "id"; plain "tags[*].name" "tag"];
       Delimiter := 44; AddHeader := true |} =
    ({| Comma := 44; written := [["id"; "tag"]; ["1"; "x"]; ["1"; "y"]] |}, None).
Proof.
  exact (C2_flattened_elements_must_be_objects "id" "tag" 44 true eq_refl).
Defined.

(** C2 as the specification has it fails: on scenario A [Convert] does not
    succeed, and it writes no data row after the header. *)
Lemma C2_counterexample :
  let out :=
    Convert inputC2
      {| Fields := [plain "id" "id"; plain "tags[*]" "tag"];
         Delimiter := 44; AddHeader := true |} in
  out.2 = Some (ErrElementNotObject "tags" 0 "string")
  /\ written out.1 = [["id"; "tag"]]
  /\ written out.1 <> [["id"; "tag"]; ["1"; "x"]; ["1"; "y"]].
Proof. repeat split. discriminate. Qed.

(** ** C3: the delimiter left at zero *)

Section InvalidDelimiter.

Variable fields : list Field.
Variable flattenArrayPath : string.

(** A writer that rejects its delimiter comes out of the loops as it
    went in. *)
Lemma writeItems_invalid (originalRecord : record) (items : list record) (w : Writer) :
  validDelim (Comma w) = false ->
  (writeItems fields originalRecord items w).1 = w.
Proof.
  intros Hv. destruct items as [|item items]; cbn [writeItems]; [done|].
  destruct (buildRow fields originalRecord item); [|done].
  by rewrite Writer_Write_invalid.
Qed.

Lemma processRecord_invalid (originalRecord : record) (w : Writer) :
  validDelim (Comma w) = false ->
  (processRecord fields flattenArrayPath originalRecord w).1 = w.
Proof.
  intros Hv.
  destruct (processRecord_cases fields flattenArrayPath originalRecord)
    as [[o Hsame]|[arr [items [_ [_ Hitems]]]]].
  - by rewrite Hsame.
  - rewrite Hitems. by apply writeItems_invalid.
Qed.

Lemma processRecords_invalid (tokens : list Delim) (rest : list piece) (w : Writer) :
  validDelim (Comma w) = false ->
  (processRecords fields flattenArrayPath tokens rest w).1 = w.
Proof.
  intros Hv. induction rest as [|p rest IH]; cbn [processRecords]; [done|].
  destruct (morePiece p); [|done].
  destruct (decodePiece p) as [originalRecord|e]; [|done].
  pose proof (processRecord_invalid originalRecord w Hv) as Hw.
  destruct (processRecord fields flattenArrayPath originalRecord w) as [w' [e|]];
    simpl in Hw; subst w'; [done|]. apply IH.
Qed.

End InvalidDelimiter.

Lemma afterHeader_invalid (r : list piece) (fields : list Field) (w : Writer) :
  validDelim (Comma w) = false -> (afterHeader r fields w).1 = w.
Proof.
  intros Hv. unfold afterHeader.
  destruct (Decoder_Token (NewDecoder r)) as [[[]|?] decoder| |?]; try done.
  unfold afterArrayStart.
  destruct (String.eqb (getFlattenArrayPath fields) ""); [done|].
  pose proof (processRecords_invalid fields (getFlattenArrayPath fields)
                (tokenStack decoder) (input decoder) w Hv) as Hw.
  destruct (processRecords _ _ _ _ w) as [w' [decoder'|e]]; simpl in Hw; subst w';
    [|done].
  by destruct (Decoder_Token decoder') as [[[]|?] ?| |?].
Qed.

(** C3 (the code at the failing input): with [Delimiter] left at zero the
    writer's delimiter is NUL, not the comma; the writer rejects it, so no
    row at all is written, whatever the input and the fields, and with a
    header asked for [Convert] fails on the header. *)
Theorem C3_zero_delimiter_is_not_defaulted
    (r : list piece) (fields : list Field) (addHeader : bool) :
  let out := Convert r {| Fields := fields; Delimiter := 0; AddHeader := addHeader |} in
  Comma out.1 = 0%Z
  /\ written out.1 = []
  /\ (addHeader = true ->
      out.2 = Some (ErrWriteHeader "csv: invalid field or comment delimiter")).
Proof.
  destruct addHeader; cbn zeta.
  - by rewrite Convert_header_failed.
  - rewrite Convert_header_done by (by left).
    cbn [Fields Delimiter headerRows AddHeader].
    by rewrite afterHeader_invalid.
Qed.

(** ** C4: the header *)

(** The header follows [AddHeader] as it is given. With [AddHeader] true
    and a delimiter the writer accepts, the output is one header row, the
    [CSVHeader]s of the fields in their order, and then exactly what the
    same conversion writes with [AddHeader] false, which is the data rows
    and nothing before them; both end the same way. *)
Lemma header_follows_AddHeader
    (r : list piece) (fields : list Field) (delimiter : Z) :
  validDelim delimiter = true ->
  let on := Convert r {| Fields := fields; Delimiter := delimiter; AddHeader := true |} in
  let off := Convert r {| Fields := fields; Delimiter := delimiter; AddHeader := false |} in
  written on.1 = List.map CSVHeader fields :: written off.1
  /\ written off.1 = (dataRows r fields).1
  /\ on.2 = off.2.
Proof.
  intros Hv on off. subst on off. by rewrite !Convert_valid.
Qed.

(** C4 (the code at the failing input): with [AddHeader] left at its zero
    value, which is [false], [Convert] on [[{"items":[{"name":"a"}]}]]
    writes the data row and no header row before it; the header row is
    written only when [AddHeader] is set to [true]. *)
Theorem C4_zero_AddHeader_writes_no_header :
  Convert inputC4
    {| Fields := [plain "items[*].name" "Name"]; Delimiter := 44; AddHeader := false |} =
  ({| Comma := 44; written := [["a"]] |}, None)
  /\ Convert inputC4
    {| Fields := [plain "items[*].name" "Name"]; Delimiter := 44; AddHeader := true |} =
  ({| Comma := 44; written := [["Name"]; ["a"]] |}, None).
Proof. split; reflexivity. Qed.

(** ** C5: the top-level value *)

(** C5 (as amended): when the header step has gone through and the input
    does not begin with an array, [Convert] writes nothing more; if the
    input is empty it reports no error, and otherwise (a scalar, an object,
    a stray delimiter, bytes that are no JSON) it fails with a format
    error. *)
Theorem C5_top_level_not_an_array (r : list piece) (options : Options) :
  headerAccepted options ->
  startsArray r = false ->
  (Convert r options).1 =
    {| Comma := Delimiter options; written := headerRows options |}
  /\ match r with
     | [] => (Convert r options).2 = None
     | _ :: _ => exists e, (Convert r options).2 = Some e /\ isFormatError e = true
     end.
Proof.
  intros Hacc Hstart. rewrite Convert_header_done by done.
  unfold afterHeader, Decoder_Token, NewDecoder. simpl.
  destruct r as [|[[]|[]|] r]; simpl in *; try done; split; try done; by eexists.
Qed.

Lemma C5_top_level_not_an_array_witness :
  let options :=
    {| Fields := [plain "items[*].name" "Name"]; Delimiter := 44; AddHeader := true |} in
  (Convert [PValue (object [("items", VArray [])])] options).1 =
    {| Comma := 44; written := [["Name"]] |}
  /\ exists e, (Convert [PValue (object [("items", VArray [])])] options).2 = Some e
               /\ isFormatError e = true.
Proof.
  exact (C5_top_level_not_an_array [PValue (object [("items", VArray [])])]
           {| Fields := [plain "items[*].name" "Name"]; Delimiter := 44; AddHeader := true |}
           (or_intror eq_refl) eq_refl).
Defined.

(** C5 as the specification has it fails: an input with no JSON value in
    it has no array as its top-level value, and [Convert] reports no error
    on it. *)
Lemma C5_counterexample :
  startsArray [] = false
  /\ Convert []
       {| Fields := [plain "items[*].name" "Name"]; Delimiter := 44; AddHeader := true |} =
     ({| Comma := 44; written := [["Name"]] |}, None).
Proof. split; reflexivity. Qed.

(** ** C6: the path resolver *)

(** What the loop does at a value that is neither a map nor nil: with the
    last key in hand it returns the value itself, not nil. *)
Lemma walkKeys_last_key_at_scalar (key : string) (i : nat) (currentValue : value) :
  key <> "" ->
  currentValue <> VNil -> (forall m, currentValue <> VMap m) ->
  walkKeys [key] i (S i) currentValue = Ok currentValue.
Proof.
  intros Hkey Hnil Hmap. cbn [walkKeys].
  destruct (String.eqb_spec key "") as [?|_]; [done|].
  assert ((i <? S i - 1)%nat = false) as Hlt by (apply Nat.ltb_ge; lia).
  destruct currentValue; try done; try (by rewrite Hlt).
  by destruct (Hmap m).
Qed.

(** With two keys or more still to go it returns nil. *)
Lemma walkKeys_earlier_key_at_scalar
    (key : string) (keys : list string) (i n : nat) (currentValue : value) :
  key <> "" -> (i < n - 1)%nat ->
  (forall m, currentValue <> VMap m) ->
  walkKeys (key :: keys) i n currentValue = Ok VNil.
Proof.
  intros Hkey Hi Hmap. simpl.
  destruct (String.eqb_spec key "") as [?|_]; [done|].
  apply Nat.ltb_lt in Hi.
  destruct currentValue; try done; try (by rewrite Hi).
  by destruct (Hmap m).
Qed.

(** C6 (the code at the failing input): in [{"a":"x"}] the path [a.b] does
    not exist, since the value at [a] is a string; the resolver returns
    that string, not nil, and the cell reads [x], while the path [c.b],
    which does not exist either, gives nil and the empty cell. In the
    output of [Convert] the two columns differ. *)
Theorem C6_scalar_before_last_segment_is_returned :
  getValueByDotPath dataC6 "a.b" = Ok (VString "x")
  /\ getValueByDotPath dataC6 "c.b" = Ok VNil
  /\ Convert inputC6
       {| Fields := [plain "a.b" "AB"; plain "c.b" "CB"; plain "items[*].n" "N"];
          Delimiter := 44; AddHeader := false |} =
     ({| Comma := 44; written := [["x"; ""; ""]] |}, None).
Proof. repeat split; reflexivity. Qed.

(** The rest of the traversal rule holds: with no empty key the walk never
    fails, nil stays nil, and a key that is absent gives nil. *)
Lemma walkKeys_no_error (keys : list string) (i n : nat) (currentValue : value) :
  Forall (fun key => key <> "") keys ->
  exists v, walkKeys keys i n currentValue = Ok v.
Proof.
  intros Hkeys. revert i currentValue.
  induction Hkeys as [|key keys Hkey _ IH]; intros i currentValue; cbn [walkKeys].
  - by eexists.
  - destruct (String.eqb_spec key "") as [?|_]; [done|].
    destruct currentValue as [| | | | |m|];
      try (destruct (i <? n - 1)%nat; [by eexists | apply IH]).
    + by eexists.
    + destruct (m !! key); [apply IH | by eexists].
Qed.

Lemma walkKeys_at_nil (key : string) (keys : list string) (i n : nat) :
  key <> "" -> walkKeys (key :: keys) i n VNil = Ok VNil.
Proof.
  intros Hkey. cbn [walkKeys]. by destruct (String.eqb_spec key "").
Qed.

Lemma walkKeys_absent_key
    (key : string) (keys : list string) (i n : nat) (m : gmap string value) :
  key <> "" -> m !! key = None -> walkKeys (key :: keys) i n (VMap m) = Ok VNil.
Proof.
  intros Hkey Hm. cbn [walkKeys]. destruct (String.eqb_spec key ""); [done|].
  by rewrite Hm.
Qed.

(** A path that is written well never makes the resolver fail. *)
Lemma getValueByDotPath_no_error (data : record) (path : string) :
  Forall (fun key => key <> "") (strings.Split path ".") ->
  exists v, getValueByDotPath data path = Ok v.
Proof.
  intros Hkeys. unfold getValueByDotPath.
  destruct (String.eqb path ""); [by eexists|]. by apply walkKeys_no_error.
Qed.

(** ** C8: records that give no row *)

Lemma collectItems_all_nil (flattenArrayPath : string) (arr : list value) (i : nat) :
  Forall (fun item => item = VNil) arr ->
  collectItems flattenArrayPath arr i = Ok [].
Proof.
  intros Hnil. revert i. induction Hnil as [|item arr -> _ IH]; intros i; [done|].
  cbn [collectItems]. apply IH.
Qed.

(** C8: when the flatten path of a record resolves to null, or to an array
    that is empty or holds nothing but nulls, the record is passed over:
    nothing is written for it, there is no error, and the loop goes on
    with the pieces that follow as if the record had not been there. *)
Theorem C8_null_or_empty_array_gives_no_row
    (fields : list Field) (flattenArrayPath : string) (tokens : list Delim)
    (p : piece) (rest : list piece) (originalRecord : record)
    (arrayValue : value) (csvWriter : Writer) :
  decodePiece p = Ok originalRecord ->
  getValueByDotPath originalRecord flattenArrayPath = Ok arrayValue ->
  arrayValue = VNil
  \/ (exists arr, arrayValue = VArray arr /\ Forall (fun item => item = VNil) arr) ->
  processRecord fields flattenArrayPath originalRecord csvWriter = (csvWriter, None)
  /\ processRecords fields flattenArrayPath tokens (p :: rest) csvWriter =
     processRecords fields flattenArrayPath tokens rest csvWriter.
Proof.
  intros Hdecode Hpath Hvalue.
  assert (processRecord fields flattenArrayPath originalRecord csvWriter
          = (csvWriter, None)) as Hrecord.
  { unfold processRecord. rewrite Hpath.
    destruct Hvalue as [->|[arr [-> Hnil]]]; [done|].
    by rewrite collectItems_all_nil. }
  split; [done|].
  cbn [processRecords]. rewrite Hdecode, Hrecord.
  by destruct p as [[]| |].
Qed.

Lemma C8_null_or_empty_array_gives_no_row_witness :
  let fields := [plain "id" "ID"; plain "items[*].name" "Name"] in
  processRecord fields "items" recordC8 NewWriter = (NewWriter, None)
  /\ processRecords fields "items" [LBracket]
       [PValue (VMap recordC8); PValue (VMap recordC8); PDelim RBracket] NewWriter =
     processRecords fields "items" [LBracket]
       [PValue (VMap recordC8); PDelim RBracket] NewWriter.
Proof.
  refine (C8_null_or_empty_array_gives_no_row
            [plain "id" "ID"; plain "items[*].name" "Name"] "items" [LBracket]
            (PValue (VMap recordC8)) [PValue (VMap recordC8); PDelim RBracket]
            recordC8 (VArray [VNil; VNil]) NewWriter eq_refl eq_refl _).
  right. exists [VNil; VNil]. split; [reflexivity | repeat constructor].
Defined.

(** ** The rows of one record *)

(** The cell at position [i] of a row is the cell of the field at
    position [i]. *)
Lemma buildRow_lookup
    (fields : list Field) (originalRecord itemData : record) (row : list string)
    (i : nat) (field : Field) :
  buildRow fields originalRecord itemData = Ok row ->
  fields !! i = Some field ->
  exists c, cell field originalRecord itemData = Ok c /\ row !! i = Some c.
Proof.
  revert row i. induction fields as [|f fields IH]; intros row i Hrow Hfield; [done|].
  cbn [buildRow] in Hrow.
  destruct (cell f originalRecord itemData) as [c|e] eqn:Hc; [|done].
  destruct (buildRow fields originalRecord itemData) as [cs|e]; [|done].
  injection Hrow as <-. destruct i as [|i]; simpl in Hfield.
  - injection Hfield as <-. by exists c.
  - exact (IH cs i eq_refl Hfield).
Qed.

(** A row has one cell for each field. *)
Lemma buildRow_length
    (fields : list Field) (originalRecord itemData : record) (row : list string) :
  buildRow fields originalRecord itemData = Ok row -> length row = length fields.
Proof.
  revert row. induction fields as [|f fields IH]; intros row Hrow; cbn [buildRow] in Hrow.
  - by injection Hrow as <-.
  - destruct (cell f originalRecord itemData); [|done].
    destruct (buildRow fields originalRecord itemData) as [cs|]; [|done].
    injection Hrow as <-. simpl. f_equal. by apply IH.
Qed.

(** What the loop over the items adds to the output: rows, each built
    from one of the items. *)
Lemma writeItems_rows
    (fields : list Field) (originalRecord : record) (items : list record)
    (w w' : Writer) (e : option error) :
  writeItems fields originalRecord items w = (w', e) ->
  exists rows : list (list string),
    written w' = (written w ++ rows)%list
    /\ Forall (fun row => exists itemData,
                 itemData ∈ items /\ buildRow fields originalRecord itemData = Ok row)
         rows.
Proof.
  revert w. induction items as [|item items IH]; intros w Hw; cbn [writeItems] in Hw.
  - injection Hw as <- <-. exists []. by rewrite app_nil_r.
  - destruct (buildRow fields originalRecord item) as [row|err] eqn:Hrow.
    + unfold Writer_Write in Hw. destruct (validDelim (Comma w)).
      * apply IH in Hw as [rows [Hwritten Hrows]]. exists (row :: rows).
        simpl in Hwritten. rewrite Hwritten, <- app_assoc. split; [done|].
        constructor.
        -- exists item. split; [by left | done].
        -- eapply Forall_impl; [exact Hrows|].
           intros r [it [Hin Hr]]. exists it. split; [by right | done].
      * injection Hw as <- <-. exists []. by rewrite app_nil_r.
    + injection Hw as <- <-. exists []. by rewrite app_nil_r.
Qed.

Lemma collectItems_elem_of
    (flattenArrayPath : string) (arr : list value) (i : nat)
    (items : list record) (itemData : record) :
  collectItems flattenArrayPath arr i = Ok items ->
  itemData ∈ items -> VMap itemData ∈ arr.
Proof.
  revert i items. induction arr as [|item arr IH]; intros i items Hitems Hin;
    cbn [collectItems] in Hitems.
  - injection Hitems as <-. by apply elem_of_nil in Hin.
  - destruct item as [| | | | |m|]; try done.
    + right. by eapply IH.
    + destruct (collectItems flattenArrayPath arr (S i)) as [items'|] eqn:Hitems';
        [|done].
      injection Hitems as <-. apply elem_of_cons in Hin as [->|Hin]; [by left|].
      right. by eapply IH.
Qed.

(** What one record adds to the output: rows, each built from an object
    of the array at the flatten path. *)
Lemma processRecord_rows
    (fields : list Field) (flattenArrayPath : string) (originalRecord : record)
    (w w' : Writer) (e : option error) :
  processRecord fields flattenArrayPath originalRecord w = (w', e) ->
  exists rows : list (list string),
    written w' = (written w ++ rows)%list
    /\ Forall (fun row => exists arr itemData,
                 getValueByDotPath originalRecord flattenArrayPath = Ok (VArray arr)
                 /\ VMap itemData ∈ arr
                 /\ buildRow fields originalRecord itemData = Ok row)
         rows.
Proof.
  intros Hw.
  destruct (processRecord_cases fields flattenArrayPath originalRecord)
    as [[o Hsame]|[arr [items [Harr [Hcollect Hitems]]]]].
  - rewrite Hsame in Hw. injection Hw as <- _. exists []. by rewrite app_nil_r.
  - rewrite Hitems in Hw. apply writeItems_rows in Hw as [rows [Hwritten Hrows]].
    exists rows. split; [done|].
    eapply Forall_impl; [exact Hrows|].
    intros row [itemData [Hin Hrow]]. exists arr, itemData.
    repeat split; [done| |done]. by eapply collectItems_elem_of.
Qed.

(** ** The rows of one record, each with the object it comes from *)

Lemma collectItems_Ok (flattenArrayPath : string) (arr : list value) (i : nat)
    (items : list record) :
  collectItems flattenArrayPath arr i = Ok items -> items = objects arr.
Proof.
  revert i items. induction arr as [|item arr IH]; intros i items;
    cbn [collectItems objects].
  - by intros [= <-].
  - destruct item as [| | | | |m|]; try done; [apply IH|].
    destruct (collectItems flattenArrayPath arr (S i)) as [items'|] eqn:Hrest;
      [|done].
    intros [= <-]. f_equal. by eapply IH.
Qed.

(** The loop over the items writes the rows of the first items, one for
    each and in their order; when it ends without error it has gone
    through all of them. *)
Lemma writeItems_rows_tied
    (fields : list Field) (originalRecord : record) (items : list record)
    (w w' : Writer) (e : option error) :
  writeItems fields originalRecord items w = (w', e) ->
  exists (rows : list (list string)) (first later : list record),
    written w' = (written w ++ rows)%list
    /\ items = (first ++ later)%list
    /\ (e = None -> later = [])
    /\ Forall2 (fun itemData row => buildRow fields originalRecord itemData = Ok row)
         first rows.
Proof.
  revert w. induction items as [|item items IH]; intros w Hw; cbn [writeItems] in Hw.
  - injection Hw as <- <-. exists [], [], []. rewrite app_nil_r.
    split; [done|]. split; [done|]. split; [done | constructor].
  - destruct (buildRow fields originalRecord item) as [row|err] eqn:Hrow.
    + unfold Writer_Write in Hw. destruct (validDelim (Comma w)).
      * apply IH in Hw as [rows [first [later [Hwritten [-> [Hnone Hrows]]]]]].
        exists (row :: rows), (item :: first), later.
        simpl in Hwritten. rewrite Hwritten, <- app_assoc.
        split; [done|]. split; [done|]. split; [done | by constructor].
      * injection Hw as <- <-. exists [], [], (item :: items). rewrite app_nil_r.
        split; [done|]. split; [done|]. split; [done | constructor].
    + injection Hw as <- <-. exists [], [], (item :: items). rewrite app_nil_r.
      split; [done|]. split; [done|]. split; [done | constructor].
Qed.

(** What one record adds to the output: the rows of the first objects of
    the array at the flatten path, one for each and in their order, and of
    all its objects when the record ends without error. *)
Lemma processRecord_rows_tied
    (fields : list Field) (flattenArrayPath : string) (originalRecord : record)
    (w w' : Writer) (e : option error) :
  processRecord fields flattenArrayPath originalRecord w = (w', e) ->
  exists (rows : list (list string)) (first later : list record),
    written w' = (written w ++ rows)%list
    /\ recordObjects flattenArrayPath originalRecord = (first ++ later)%list
    /\ (e = None -> later = [])
    /\ Forall2 (fun itemData row => buildRow fields originalRecord itemData = Ok row)
         first rows.
Proof.
  unfold processRecord, recordObjects.
  assert (forall (o : option error) (objs : list record),
            (o = None -> objs = []) -> (w, o) = (w', e) ->
            exists (rows : list (list string)) (first later : list record),
              written w' = (written w ++ rows)%list
              /\ objs = (first ++ later)%list
              /\ (e = None -> later = [])
              /\ Forall2 (fun itemData row =>
                            buildRow fields originalRecord itemData = Ok row)
                   first rows) as Hsame.
  { intros o objs Ho [= <- <-]. exists [], [], objs. rewrite app_nil_r.
    split; [done|]. split; [done|]. split; [done | constructor]. }
  destruct (getValueByDotPath originalRecord flattenArrayPath)
    as [[| | | |arr| |]|err]; try (by apply Hsame).
  destruct (collectItems flattenArrayPath arr 0) as [items|err] eqn:Hitems;
    [|by apply Hsame].
  apply collectItems_Ok in Hitems as ->.
  destruct (objects arr) as [|item items]; [by apply Hsame|].
  cbn [length Nat.eqb]. apply writeItems_rows_tied.
Qed.

(** ** C7: numbers *)

(** C7 (as amended): a number that reaches the output untransformed is
    written as the literal text it has in the input. The rows one record
    adds to the output are the rows of the first objects of the array at
    the flatten path, one for each and in their order (of all its objects
    when the record ends without error); in the row of an object, the cell
    of a field with no transformer is the text of the value found for that
    field in that object and its record, and when that value is the
    [json.Number] [n] the cell is [n], digit for digit. *)
Theorem C7_number_is_written_as_in_the_input
    (fields : list Field) (flattenArrayPath : string) (originalRecord : record)
    (w w' : Writer) (e : option error) (i : nat) (field : Field) :
  processRecord fields flattenArrayPath originalRecord w = (w', e) ->
  fields !! i = Some field ->
  FieldTransformer field = None ->
  exists (rows : list (list string)) (first later : list record),
    written w' = (written w ++ rows)%list
    /\ recordObjects flattenArrayPath originalRecord = (first ++ later)%list
    /\ (e = None -> later = [])
    /\ Forall2 (fun itemData row => exists v,
                  fieldValue field originalRecord itemData = Ok v
                  /\ row !! i = Some (valueToString v)
                  /\ forall n, v = VNumber n -> row !! i = Some n)
         first rows.
Proof.
  intros Hw Hfield Hnone.
  apply processRecord_rows_tied in Hw
    as [rows [first [later [Hwritten [Hobjects [Hlater Hrows]]]]]].
  exists rows, first, later.
  split; [done|]. split; [done|]. split; [done|].
  eapply Forall2_impl; [exact Hrows|].
  intros itemData row Hrow.
  destruct (buildRow_lookup _ _ _ _ _ _ Hrow Hfield) as [c [Hc ->]].
  unfold cell in Hc. rewrite Hnone in Hc.
  destruct (fieldValue field originalRecord itemData) as [v|] eqn:Hv; [|done].
  injection Hc as <-. exists v.
  split; [done|]. split; [done|]. by intros n ->.
Qed.

Lemma C7_number_is_written_as_in_the_input_witness :
  exists (rows : list (list string)) (first later : list record),
    [["5.00"; "3"]] = ([] ++ rows)%list
    /\ recordObjects "items" recordC7 = (first ++ later)%list
    /\ ((None : option error) = None -> later = [])
    /\ Forall2 (fun itemData row => exists v,
                  fieldValue (plain "items[*].price" "Item Price") recordC7 itemData = Ok v
                  /\ row !! 0%nat = Some (valueToString v)
                  /\ forall n, v = VNumber n -> row !! 0%nat = Some n)
         first rows.
Proof.
  exact (C7_number_is_written_as_in_the_input
           [plain "items[*].price" "Item Price"; plain "items[*].quantity" "Quantity"]
           "items" recordC7 NewWriter {| Comma := 44; written := [["5.00"; "3"]] |} None
           0 (plain "items[*].price" "Item Price") eq_refl eq_refl eq_refl).
Defined.

(** C7 as the specification has it fails: the number 5.00 of the input
    [[{"items":[{"price":5.00,"quantity":3}]}]] is written [5.00], with its
    two zeros. *)
Lemma C7_counterexample :
  Convert [PValue (VArray [VMap recordC7])]
    {| Fields := [plain "items[*].price" "Item Price"; plain "items[*].quantity" "Quantity"];
       Delimiter := 44; AddHeader := false |} =
  ({| Comma := 44; written := [["5.00"; "3"]] |}, None).
Proof. reflexivity. Qed.

(** ** C9: the parent's value in every row *)

(** The cell of a field with no marker does not depend on the item. *)
Lemma cell_without_marker (field : Field) (originalRecord itemData itemData' : record) :
  ~ hasMarker (JSONPath field) ->
  cell field originalRecord itemData = cell field originalRecord itemData'.
Proof.
  intros Hno. apply Index_None in Hno. unfold cell, fieldValue. by rewrite Hno.
Qed.

(** C9: among the rows one record adds to the output, the cell of a field
    whose JSONPath has no marker is there and is the same in all of them.
    A transformer is a function here: the same arguments, the same
    result. *)
Theorem C9_parent_value_is_the_same_in_every_row
    (fields : list Field) (flattenArrayPath : string) (originalRecord : record)
    (w w' : Writer) (e : option error) (i : nat) (field : Field) :
  processRecord fields flattenArrayPath originalRecord w = (w', e) ->
  fields !! i = Some field ->
  ~ hasMarker (JSONPath field) ->
  exists rows : list (list string),
    written w' = (written w ++ rows)%list
    /\ forall row1 row2, row1 ∈ rows -> row2 ∈ rows ->
         is_Some (row1 !! i) /\ row1 !! i = row2 !! i.
Proof.
  intros Hw Hfield Hno.
  apply processRecord_rows in Hw as [rows [Hwritten Hrows]].
  exists rows. split; [done|]. intros row1 row2 Hin1 Hin2.
  rewrite Forall_forall in Hrows.
  destruct (Hrows row1 Hin1) as [_ [item1 [_ [_ Hrow1]]]].
  destruct (Hrows row2 Hin2) as [_ [item2 [_ [_ Hrow2]]]].
  destruct (buildRow_lookup _ _ _ _ _ _ Hrow1 Hfield) as [c1 [Hc1 ->]].
  destruct (buildRow_lookup _ _ _ _ _ _ Hrow2 Hfield) as [c2 [Hc2 ->]].
  rewrite (cell_without_marker field originalRecord item1 item2) in Hc1 by done.
  split; [by eexists | congruence].
Qed.

Lemma C9_parent_value_is_the_same_in_every_row_witness :
  exists rows : list (list string),
    [["1"; "a"]; ["1"; "c"]] = ([] ++ rows)%list
    /\ forall row1 row2, row1 ∈ rows -> row2 ∈ rows ->
         is_Some (row1 !! 0%nat) /\ row1 !! 0%nat = row2 !! 0%nat.
Proof.
  refine (C9_parent_value_is_the_same_in_every_row
            [plain "id" "ID"; plain "items[*].name" "Name"] "items" recordC9
            NewWriter {| Comma := 44; written := [["1"; "a"]; ["1"; "c"]] |} None
            0 (plain "id" "ID") eq_refl eq_refl _).
  apply Index_None. reflexivity.
Defined.

(** ** C10: transformers and nil *)

(** C10 (the code at the failing input): in [{"a":"x","items":[{}]}] the
    path [a.b] can not be resolved, the value at [a] being a string, and so
    can not [c.b], the key [c] being absent. For [c.b] the transformer is
    called on nil and the cell is what it returns for nil, [Null Array];
    for [a.b] the resolver hands over the string, the transformer is
    called on it and not on nil, and the cell reads [Unexpected Type:
    string]. *)
Theorem C10_transformer_gets_a_scalar_on_an_unresolvable_path :
  getValueByDotPath (list_to_map [("a", VString "x"); ("items", VArray [object []])]) "a.b"
  = Ok (VString "x")
  /\ ItemsSummaryTransformer (VString "x") ∅ = (VString "Unexpected Type: string", None)
  /\ ItemsSummaryTransformer VNil ∅ = (VString "Null Array", None)
  /\ Convert inputC6
       {| Fields := fieldsC10_unresolvable; Delimiter := 44; AddHeader := false |} =
     ({| Comma := 44;
         written := [["Unexpected Type: string"; "Null Array"; EmptyString]] |}, None).
Proof. repeat split; reflexivity. Qed.

(** X22: a field with a transformer has it called for every row that is
    written, on the value found for the row's own object. The rows one
    record adds to the output are the rows of the first objects of the
    array at the flatten path, one for each and in their order (of all its
    objects when the record ends without error); in the row of an object
    the transformer was called on the value found for the field in that
    object and its record, nil included, and on the original record; it
    reported no error, and the cell is the text of what it returned. *)
Theorem processRecord_transformer_cells
    (fields : list Field) (flattenArrayPath : string) (originalRecord : record)
    (w w' : Writer) (e : option error)
    (i : nat) (field : Field) (transform : Transformer) :
  processRecord fields flattenArrayPath originalRecord w = (w', e) ->
  fields !! i = Some field ->
  FieldTransformer field = Some transform ->
  exists (rows : list (list string)) (first later : list record),
    written w' = (written w ++ rows)%list
    /\ recordObjects flattenArrayPath originalRecord = (first ++ later)%list
    /\ (e = None -> later = [])
    /\ Forall2 (fun itemData row => exists v,
                  fieldValue field originalRecord itemData = Ok v
                  /\ (transform v originalRecord).2 = None
                  /\ row !! i = Some (valueToString (transform v originalRecord).1))
         first rows.
Proof.
  intros Hw Hfield Htransform.
  apply processRecord_rows_tied in Hw
    as [rows [first [later [Hwritten [Hobjects [Hlater Hrows]]]]]].
  exists rows, first, later.
  split; [done|]. split; [done|]. split; [done|].
  eapply Forall2_impl; [exact Hrows|].
  intros itemData row Hrow.
  destruct (buildRow_lookup _ _ _ _ _ _ Hrow Hfield) as [c [Hc ->]].
  unfold cell in Hc. rewrite Htransform in Hc.
  destruct (fieldValue field originalRecord itemData) as [v|] eqn:Hv; [|done].
  exists v. split; [done|].
  destruct (transform v originalRecord) as [v' [c'|]]; [done|].
  by injection Hc as <-.
Qed.

Lemma processRecord_transformer_cells_witness :
  exists (rows : list (list string)) (first later : list record),
    [["a"; "Null Array"; "Null Array"]] = ([] ++ rows)%list
    /\ recordObjects "items" recordC10 = (first ++ later)%list
    /\ ((None : option error) = None -> later = [])
    /\ Forall2 (fun itemData row => exists v,
                  fieldValue {| JSONPath := "missing.key"; CSVHeader := "Missing";
                                FieldTransformer := Some ItemsSummaryTransformer |}
                    recordC10 itemData = Ok v
                  /\ (ItemsSummaryTransformer v recordC10).2 = None
                  /\ row !! 2%nat
                     = Some (valueToString (ItemsSummaryTransformer v recordC10).1))
         first rows.
Proof.
  exact (processRecord_transformer_cells fieldsC10 "items" recordC10
           NewWriter {| Comma := 44; written := [["a"; "Null Array"; "Null Array"]] |} None
           2 _ ItemsSummaryTransformer eq_refl eq_refl eq_refl).
Defined.

(** ** The other scenarios of the specification, run on the embedding *)

(** Scenario B: [[{"id":1,"items":null}]] gives no data row. *)
Example scenario_B :
  Convert [PValue (VArray [object [("id", VNumber "1"); ("items", VNil)]])] optionsItems =
  ({| Comma := 44; written := [["id"; "name"]] |}, None).
Proof. reflexivity. Qed.

(** Scenario C: [[{"id":1,"items":[{"name":"a"},null,{"name":"c"}]}]] gives
    two data rows; the null leaves no blank row. *)
Example scenario_C :
  Convert [PValue (VArray [VMap recordC9])] optionsItems =
  ({| Comma := 44; written := [["id"; "name"]; ["1"; "a"]; ["1"; "c"]] |}, None).
Proof. reflexivity. Qed.

(** Scenario D: [[{"items":[{"v":5}]}]] with the field [items[*].missing]
    gives one row, its cell empty. *)
Example scenario_D :
  Convert [PValue (VArray [object [("items", VArray [object [("v", VNumber "5")]])]])]
    {| Fields := [plain "items[*].missing" "missing"]; Delimiter := 44; AddHeader := false |} =
  ({| Comma := 44; written := [[EmptyString]] |}, None).
Proof. reflexivity. Qed.

(** Scenario E: [[{"items":"not-an-array"}]] fails, and the error names the
    path and the type met there. *)
Example scenario_E :
  Convert [PValue (VArray [object [("items", VString "not-an-array")]])]
    {| Fields := [plain "items[*].x" "x"]; Delimiter := 44; AddHeader := false |} =
  ({| Comma := 44; written := [] |}, Some (ErrNotArray "items" "string")).
Proof. reflexivity. Qed.

(** An array that is cut short: the rows of the records read so far stay
    in the output, and the run ends in error. *)
Example truncated_input :
  Convert [PDelim LBracket; PValue (VMap recordC9)] optionsItems =
  ({| Comma := 44; written := [["id"; "name"]; ["1"; "a"]; ["1"; "c"]] |},
   Some ErrUnexpectedEOF).
Proof. reflexivity. Qed.

(** * More of the code *)

(** ** [strings.Split], on the paths of the package *)

Lemma occursIn_cons (sub : string) (c : ascii) (s : string) :
  occursIn sub s -> occursIn sub (String c s).
Proof. intros [pre [post ->]]. by exists (String c pre), post. Qed.

Lemma noDot_cons (c : ascii) (s : string) :
  ~ occursIn "." (String c s) -> c <> "."%char /\ ~ occursIn "." s.
Proof.
  intros Hno. split.
  - intros ->. apply Hno. by exists "", s.
  - intros Ho. by apply Hno, occursIn_cons.
Qed.

Lemma Split_no_separator (s : string) :
  ~ occursIn "." s -> strings.Split s "." = [s].
Proof.
  induction s as [|c s IH]; intros Hno; [done|].
  apply noDot_cons in Hno as [Hc Hno]. cbn [strings.Split].
  destruct (Ascii.eqb_spec c ".") as [?|_]; [done|]. by rewrite IH.
Qed.

Lemma Split_head (key rest : string) :
  ~ occursIn "." key ->
  strings.Split (key ++ "." ++ rest) "." = key :: strings.Split rest ".".
Proof.
  induction key as [|c key IH]; intros Hno; [done|].
  apply noDot_cons in Hno as [Hc Hno].
  change (String c key ++ "." ++ rest) with (String c (key ++ "." ++ rest)).
  cbn [strings.Split].
  destruct (Ascii.eqb_spec c ".") as [?|_]; [done|]. by rewrite IH.
Qed.

Lemma Split_not_nil (s : string) (sep : ascii) : strings.Split s sep <> [].
Proof.
  destruct s as [|c s]; [done|]. cbn [strings.Split].
  destruct (Ascii.eqb c sep); [done|]. by destruct (strings.Split s sep).
Qed.

(** Joining the pieces with the separator gives the string back. *)
Lemma Split_concat (s : string) : String.concat "." (strings.Split s ".") = s.
Proof.
  induction s as [|c s IH]; [done|]. cbn [strings.Split].
  pose proof (Split_not_nil s ".") as Hne.
  destruct (strings.Split s ".") as [|seg segs]; [done|].
  destruct (Ascii.eqb_spec c ".") as [->|_].
  - change (String.concat "." ("" :: seg :: segs))
      with ("" ++ "." ++ String.concat "." (seg :: segs)).
    by rewrite IH.
  - destruct segs as [|seg' segs]; simpl in IH; subst s; reflexivity.
Qed.

(** ** More of the path resolver *)

Lemma walkKeys_resolve (keys : list string) (i : nat) (v : value) :
  Forall (fun key => key <> "") keys ->
  walkKeys keys i (i + length keys) v = Ok (resolve keys v).
Proof.
  intros Hkeys. revert i v.
  induction Hkeys as [|key keys Hkey _ IH]; intros i v; [done|].
  cbn [walkKeys resolve length].
  destruct (String.eqb_spec key "") as [?|_]; [done|].
  assert (walkKeys keys (S i) (i + S (length keys)) v = Ok (resolve keys v)) as Hnext
    by (rewrite Nat.add_succ_r; apply (IH (S i))).
  assert (forall v', walkKeys keys (S i) (i + S (length keys)) v' = Ok (resolve keys v'))
    as Hstep by (intros v'; rewrite Nat.add_succ_r; apply (IH (S i))).
  assert ((i <? i + S (length keys) - 1)%nat
          = match keys with [] => false | _ :: _ => true end) as Htest.
  { destruct keys; simpl; [apply Nat.ltb_ge | apply Nat.ltb_lt]; lia. }
  destruct v as [| | | | |m|]; rewrite ?Htest; try done;
    try (destruct keys; [apply Hstep | done]).
  destruct (m !! key); [apply Hstep | done].
Qed.

Lemma walkKeys_shift (keys : list string) (i n : nat) (v : value) :
  walkKeys keys (S i) (S n) v = shiftIndex (walkKeys keys i n v).
Proof.
  revert i v. induction keys as [|key keys IH]; intros i v; [done|].
  cbn [walkKeys]. destruct (String.eqb key ""); [done|].
  assert ((S i <? S n - 1)%nat = (i <? n - 1)%nat) as ->
    by (destruct (Nat.ltb_spec (S i) (S n - 1)), (Nat.ltb_spec i (n - 1));
        try done; lia).
  destruct v as [| | | | |m|]; try done;
    try (destruct (i <? n - 1)%nat; [done | apply IH]).
  destruct (m !! key); [apply IH | done].
Qed.

Lemma walkKeys_error (keys : list string) (i n : nat) (v : value) (e : error) :
  walkKeys keys i n v = Err e ->
  exists k, e = ErrEmptyKey (i + k)
            /\ keys !! k = Some ""
            /\ forall j, (j < k)%nat -> keys !! j <> Some "".
Proof.
  revert i v. induction keys as [|key keys IH]; intros i v; [done|].
  cbn [walkKeys]. destruct (String.eqb_spec key "") as [->|Hkey].
  - intros [= <-]. exists 0%nat. rewrite Nat.add_0_r.
    split; [done|]. split; [done|]. intros j Hj. lia.
  - intros Hwalk.
    assert (exists v', walkKeys keys (S i) n v' = Err e) as [v' Hnext].
    { destruct v as [| | | | |m|]; try done;
        try (destruct (i <? n - 1)%nat; [done | by eexists]).
      destruct (m !! key); [by eexists | done]. }
    apply IH in Hnext as [k [-> [Hk Hbefore]]].
    exists (S k). rewrite Nat.add_succ_r.
    split; [done|]. split; [done|].
    intros [|j] Hj; simpl; [congruence | apply Hbefore; lia].
Qed.

(** X1: a path that is one plain key (not empty, no dot in it) is a lookup
    in the container: the value under the key, or nil when the key is
    absent; what is put under a key is found there. *)
Theorem getValueByDotPath_plain_key (data : record) (key : string) (v : value) :
  key <> "" -> ~ occursIn "." key ->
  getValueByDotPath data key = Ok (default VNil (data !! key))
  /\ getValueByDotPath (<[key := v]> data) key = Ok v.
Proof.
  intros Hkey Hdot.
  assert (forall d : record, getValueByDotPath d key = Ok (default VNil (d !! key))) as Hget.
  { intros d. unfold getValueByDotPath.
    destruct (String.eqb_spec key "") as [?|_]; [done|].
    rewrite Split_no_separator by done. cbn [walkKeys length].
    destruct (String.eqb_spec key "") as [?|_]; [done|].
    by destruct (d !! key). }
  split; [apply Hget|]. by rewrite Hget, lookup_insert_eq.
Qed.

Lemma getValueByDotPath_plain_key_witness :
  getValueByDotPath recordC8 "id" = Ok (default VNil (recordC8 !! "id"))
  /\ getValueByDotPath (<["id" := VString "x"]> recordC8) "id" = Ok (VString "x").
Proof.
  refine (getValueByDotPath_plain_key recordC8 "id" (VString "x") _ _);
    [discriminate | apply Index_None; reflexivity].
Defined.

(** X2: a path goes through a nested object: when the first key is plain
    and leads to an object, the rest of the path (not empty) is resolved in
    that object, with the same result, the index in the error of an empty
    key being one more. *)
Theorem getValueByDotPath_through_object
    (data m : record) (key rest : string) :
  key <> "" -> ~ occursIn "." key -> rest <> "" ->
  data !! key = Some (VMap m) ->
  getValueByDotPath data (key ++ "." ++ rest) = shiftIndex (getValueByDotPath m rest).
Proof.
  intros Hkey Hdot Hrest Hm. unfold getValueByDotPath.
  destruct (String.eqb_spec (key ++ "." ++ rest) "") as [Hnil|_];
    [by destruct key|].
  destruct (String.eqb_spec rest "") as [?|_]; [done|].
  rewrite Split_head by done. cbn [walkKeys length].
  destruct (String.eqb_spec key "") as [?|_]; [done|].
  rewrite Hm. apply walkKeys_shift.
Qed.

Lemma getValueByDotPath_through_object_witness :
  getValueByDotPath {[ "address" := object [("city", VString "Tokyo")] ]} "address.city"
  = shiftIndex (getValueByDotPath (list_to_map [("city", VString "Tokyo")]) "city").
Proof.
  refine (getValueByDotPath_through_object
            {[ "address" := object [("city", VString "Tokyo")] ]}
            (list_to_map [("city", VString "Tokyo")]) "address" "city" _ _ _ eq_refl);
    [discriminate | apply Index_None; reflexivity | discriminate].
Defined.

(** X3: the keys that follow an absent key are never looked at: when the
    first key is plain and absent from the container the result is nil
    whatever the rest of the path is, an empty key in it included. *)
Theorem getValueByDotPath_absent_head (data : record) (key rest : string) :
  key <> "" -> ~ occursIn "." key ->
  data !! key = None ->
  getValueByDotPath data (key ++ "." ++ rest) = Ok VNil.
Proof.
  intros Hkey Hdot Hnone. unfold getValueByDotPath.
  destruct (String.eqb_spec (key ++ "." ++ rest) "") as [Hnil|_];
    [by destruct key|].
  rewrite Split_head by done. by apply walkKeys_absent_key.
Qed.

Lemma getValueByDotPath_absent_head_witness :
  getValueByDotPath recordC8 ("user" ++ "." ++ ".name") = Ok VNil.
Proof.
  refine (getValueByDotPath_absent_head recordC8 "user" ".name" _ _ eq_refl);
    [discriminate | apply Index_None; reflexivity].
Defined.

(** X4: the only error of the resolver is the empty key, and it names the
    first one: when it fails, the error is [ErrEmptyKey i], the key at
    index [i] of the split path is empty and no key before it is. *)
Theorem getValueByDotPath_error (data : record) (path : string) (e : error) :
  getValueByDotPath data path = Err e ->
  exists i, e = ErrEmptyKey i
            /\ strings.Split path "." !! i = Some ""
            /\ forall j, (j < i)%nat -> strings.Split path "." !! j <> Some "".
Proof.
  unfold getValueByDotPath. destruct (String.eqb path ""); [done|].
  intros Hwalk. by apply walkKeys_error in Hwalk.
Qed.

Lemma getValueByDotPath_error_witness :
  exists i, ErrEmptyKey 1 = ErrEmptyKey i
            /\ strings.Split "items..name" "." !! i = Some ""
            /\ forall j, (j < i)%nat -> strings.Split "items..name" "." !! j <> Some "".
Proof.
  exact (getValueByDotPath_error recordC9 "items..name" (ErrEmptyKey 1) eq_refl).
Defined.

(** X5: on a path that is not empty and has no empty key, the resolver
    never fails and its result is told by the keys alone ([resolve]): the
    indices of the loop serve only to know whether the key in hand is the
    last one. *)
Theorem getValueByDotPath_resolve (data : record) (path : string) :
  path <> "" ->
  Forall (fun key => key <> "") (strings.Split path ".") ->
  getValueByDotPath data path = Ok (resolve (strings.Split path ".") (VMap data)).
Proof.
  intros Hpath Hkeys. unfold getValueByDotPath.
  destruct (String.eqb_spec path "") as [?|_]; [done|].
  by apply (walkKeys_resolve _ 0).
Qed.

Lemma getValueByDotPath_resolve_witness :
  getValueByDotPath recordC9 "items.name"
  = Ok (resolve (strings.Split "items.name" ".") (VMap recordC9)).
Proof.
  refine (getValueByDotPath_resolve recordC9 "items.name" _ _);
    [discriminate | repeat constructor; discriminate].
Defined.

(** ** More of the flatten-target detector *)

Lemma no_char_cons (a c : ascii) (s : string) :
  ~ occursIn (String a "") (String c s) -> c <> a /\ ~ occursIn (String a "") s.
Proof.
  intros Hno. split.
  - intros ->. apply Hno. by exists "", s.
  - intros Ho. by apply Hno, occursIn_cons.
Qed.

Lemma to_app (base x : string) : strings.to (String.length base) (base ++ x) = base.
Proof.
  induction base as [|c base IH]; simpl; [by destruct x | by rewrite IH].
Qed.

Lemma from_app (base x : string) : strings.from (String.length base) (base ++ x) = x.
Proof. induction base as [|c base IH]; simpl; [by destruct x | done]. Qed.

Lemma length_app_dot (base : string) :
  String.length (base ++ ".") = S (String.length base).
Proof. induction base as [|c base IH]; simpl; [done | by rewrite IH]. Qed.

Lemma HasSuffix_app_dot (base : string) : strings.HasSuffix (base ++ ".") "." = true.
Proof.
  unfold strings.HasSuffix. rewrite length_app_dot. simpl.
  by rewrite Nat.sub_0_r, from_app.
Qed.

(** Where the first marker is, when no bracket comes before it. *)
Lemma Index_marker (base rest : string) :
  ~ occursIn "[" base ->
  strings.Index (base ++ marker ++ rest) marker = Some (String.length base).
Proof.
  induction base as [|c base IH]; intros Hno.
  - rewrite Index_unfold.
    by assert (strings.HasPrefix ("" ++ marker ++ rest) marker = true) as ->
      by (apply HasPrefix_true; by exists rest).
  - apply no_char_cons in Hno as [Hc Hno]. rewrite Index_unfold.
    change (String c base ++ marker ++ rest) with (String c (base ++ marker ++ rest)).
    assert (strings.HasPrefix (String c (base ++ marker ++ rest)) marker = false) as ->.
    { simpl. by destruct (Ascii.eqb_spec c "["). }
    by rewrite IH.
Qed.

(** Fields with no marker are passed over. *)
Lemma getFlattenArrayPath_skip (pre fields : list Field) :
  Forall (fun field => ~ hasMarker (JSONPath field)) pre ->
  getFlattenArrayPath (pre ++ fields) = getFlattenArrayPath fields.
Proof.
  induction 1 as [|field pre Hno _ IH]; [done|].
  simpl. by apply Index_None in Hno as ->.
Qed.

(** X6: the first field with a marker decides: the fields before it, which
    have none, and all the fields after it, whatever array they point at,
    have no part in the flatten path. *)
Theorem getFlattenArrayPath_first_marker_wins
    (pre post : list Field) (field : Field) :
  Forall (fun f => ~ hasMarker (JSONPath f)) pre ->
  hasMarker (JSONPath field) ->
  getFlattenArrayPath (pre ++ field :: post) = getFlattenArrayPath [field].
Proof.
  intros Hpre Hfield. rewrite getFlattenArrayPath_skip by done.
  apply occursIn_Index in Hfield as [starIndex Hindex].
  cbn [getFlattenArrayPath]. by rewrite Hindex.
Qed.

Lemma getFlattenArrayPath_first_marker_wins_witness :
  getFlattenArrayPath
    ([plain "id" "ID"] ++ plain "items[*].name" "Name" :: [plain "tags[*]" "Tag"])
  = getFlattenArrayPath [plain "items[*].name" "Name"].
Proof.
  refine (getFlattenArrayPath_first_marker_wins
            [plain "id" "ID"] [plain "tags[*]" "Tag"] (plain "items[*].name" "Name") _ _).
  - repeat constructor. apply Index_None. reflexivity.
  - exists "items", ".name". reflexivity.
Defined.

Lemma app_dot_assoc (base x : string) : (base ++ ".") ++ x = base ++ "." ++ x.
Proof.
  induction base as [|c base IH]; [done|].
  change (String c ((base ++ ".") ++ x) = String c (base ++ "." ++ x)).
  by rewrite IH.
Qed.

Lemma no_bracket_app_dot (base : string) :
  ~ occursIn "[" base -> ~ occursIn "[" (base ++ ".").
Proof.
  rewrite <- !Index_None. induction base as [|c base IH]; [done|].
  change (String c base ++ ".") with (String c (base ++ ".")).
  rewrite (Index_unfold (String c base)), (Index_unfold (String c (base ++ "."))).
  assert (strings.HasPrefix (String c (base ++ ".")) "["
          = strings.HasPrefix (String c base) "[") as ->.
  { simpl. destruct (Ascii.eqb c "["); by rewrite ?HasPrefix_nil. }
  destruct (strings.HasPrefix (String c base) "["); [done|].
  destruct (strings.Index base "["); [by simpl|]. intros _. by rewrite IH.
Qed.

(** X7: the flatten path is the text before the marker, one dot at its end
    apart: for a JSONPath [base[*]rest] with no bracket in [base] it is
    [base] when [base] does not end in a dot, and for [base.[*]rest] it is
    [base] again. *)
Theorem getFlattenArrayPath_is_the_text_before_the_marker
    (field : Field) (base rest : string) :
  ~ occursIn "[" base ->
  (JSONPath field = base ++ marker ++ rest -> strings.HasSuffix base "." = false ->
   getFlattenArrayPath [field] = base)
  /\ (JSONPath field = base ++ "." ++ marker ++ rest ->
      getFlattenArrayPath [field] = base).
Proof.
  intros Hno. split.
  - intros Hpath Hdot. cbn [getFlattenArrayPath].
    rewrite Hpath, Index_marker by done. rewrite to_app. by rewrite Hdot.
  - intros Hpath. cbn [getFlattenArrayPath].
    rewrite Hpath, <- app_dot_assoc, Index_marker by (by apply no_bracket_app_dot).
    rewrite to_app, HasSuffix_app_dot.
    rewrite length_app_dot. simpl. by rewrite Nat.sub_0_r, to_app.
Qed.

Lemma getFlattenArrayPath_is_the_text_before_the_marker_witness :
  getFlattenArrayPath [plain "order.items[*].name" "Name"] = "order.items"
  /\ getFlattenArrayPath [plain "order.items.[*].name" "Name"] = "order.items".
Proof.
  assert (~ occursIn "[" "order.items") as Hno by (apply Index_None; reflexivity).
  split.
  - exact (proj1 (getFlattenArrayPath_is_the_text_before_the_marker
                    (plain "order.items[*].name" "Name") "order.items" ".name" Hno)
             eq_refl eq_refl).
  - exact (proj2 (getFlattenArrayPath_is_the_text_before_the_marker
                    (plain "order.items.[*].name" "Name") "order.items" ".name" Hno)
             eq_refl).
Defined.

(** X8: a marker is not enough: when the first JSONPath with a marker
    begins with it ([[*]rest] or [.[*]rest]), the flatten path is empty and
    [Convert], the header step over and the array opened, fails with the
    error that says no field has a marker. *)
Theorem Convert_marker_at_the_start
    (r : list piece) (options : Options)
    (pre post : list Field) (field : Field) (rest : string) :
  Fields options = (pre ++ field :: post)%list ->
  Forall (fun f => ~ hasMarker (JSONPath f)) pre ->
  JSONPath field = marker ++ rest \/ JSONPath field = "." ++ marker ++ rest ->
  headerAccepted options ->
  startsArray r = true ->
  Convert r options =
  ({| Comma := Delimiter options; written := headerRows options |},
   Some ErrFlatteningRequired).
Proof.
  intros Hfields Hpre Hpath Hacc Hstart.
  apply startsArray_Token in Hstart as [decoder Htok].
  rewrite Convert_header_done by done.
  unfold afterHeader. rewrite Htok. unfold afterArrayStart.
  assert (getFlattenArrayPath (Fields options) = "") as ->; [|done].
  rewrite Hfields, getFlattenArrayPath_skip by done. cbn [getFlattenArrayPath].
  destruct Hpath as [->| ->].
  - assert (strings.Index (marker ++ rest) marker = Some 0%nat) as ->; [|done].
    apply (Index_marker "" rest), Index_None. reflexivity.
  - assert (strings.Index ("." ++ marker ++ rest) marker = Some 1%nat) as ->; [|done].
    apply (Index_marker "." rest), Index_None. reflexivity.
Qed.

Lemma Convert_marker_at_the_start_witness :
  Convert inputC4
    {| Fields := [plain "id" "ID"; plain "[*].name" "Name"];
       Delimiter := 44; AddHeader := true |} =
  ({| Comma := 44; written := [["ID"; "Name"]] |}, Some ErrFlatteningRequired).
Proof.
  refine (Convert_marker_at_the_start inputC4
            {| Fields := [plain "id" "ID"; plain "[*].name" "Name"];
               Delimiter := 44; AddHeader := true |}
            [plain "id" "ID"] [] (plain "[*].name" "Name") ".name"
            eq_refl _ (or_introl eq_refl) (or_intror eq_refl) eq_refl).
  repeat constructor. apply Index_None. reflexivity.
Defined.

(** ** More of the driver: what is in the output *)

Section Rows.

Variable fields : list Field.
Variable flattenArrayPath : string.

(** A property of every row that [buildRow] gives is a property of every
    row the loop over the records adds to the output. *)
Lemma processRecords_rows (P : list string -> Prop)
    (tokens : list Delim) (rest : list piece) (w : Writer) :
  (forall originalRecord itemData row,
      buildRow fields originalRecord itemData = Ok row -> P row) ->
  exists rows : list (list string),
    written (processRecords fields flattenArrayPath tokens rest w).1
    = (written w ++ rows)%list
    /\ Forall P rows.
Proof.
  intros HP. revert w. induction rest as [|p rest IH]; intros w; cbn [processRecords].
  - exists []. by rewrite app_nil_r.
  - destruct (morePiece p); [|exists []; by rewrite app_nil_r].
    destruct (decodePiece p) as [originalRecord|e]; [|exists []; by rewrite app_nil_r].
    destruct (processRecord fields flattenArrayPath originalRecord w) as [w1 o] eqn:Hw1.
    apply processRecord_rows in Hw1 as [rows1 [Hwritten1 Hrows1]].
    assert (Forall P rows1) as HP1.
    { eapply Forall_impl; [exact Hrows1|].
      intros row [_ [itemData [_ [_ Hrow]]]]. by eapply HP. }
    destruct o as [e|].
    + by exists rows1.
    + destruct (IH w1) as [rows [Hwritten Hrows]]. exists (rows1 ++ rows)%list.
      rewrite Hwritten, Hwritten1, <- app_assoc. split; [done|].
      by apply Forall_app.
Qed.

Lemma processRecords_Comma (tokens : list Delim) (rest : list piece) (w : Writer) :
  Comma (processRecords fields flattenArrayPath tokens rest w).1 = Comma w.
Proof.
  revert w. induction rest as [|p rest IH]; intros w; cbn [processRecords]; [done|].
  destruct (morePiece p); [|done].
  destruct (decodePiece p) as [originalRecord|e]; [|done].
  pose proof (processRecord_Comma fields flattenArrayPath originalRecord w) as HC.
  destruct (processRecord fields flattenArrayPath originalRecord w) as [w1 [e|]];
    [done|].
  by rewrite IH.
Qed.

(** The loop over a stream is the loop over its first part and then over
    what follows. *)
Lemma processRecords_app_more
    (tokens : list Delim) (elems rest : list piece) (w : Writer) :
  Forall (fun p => morePiece p = true) elems ->
  processRecords fields flattenArrayPath tokens (elems ++ rest) w =
  match processRecords fields flattenArrayPath tokens elems w with
  | (w', Ok _) => processRecords fields flattenArrayPath tokens rest w'
  | (w', Err e) => (w', Err e)
  end.
Proof.
  intros Hmore. revert w.
  induction Hmore as [|p elems Hp _ IH]; intros w; [done|].
  cbn [processRecords app]. rewrite Hp.
  destruct (decodePiece p) as [originalRecord|e]; [|done].
  destruct (processRecord fields flattenArrayPath originalRecord w) as [w1 [e|]];
    [done | apply IH].
Qed.

End Rows.

Lemma afterHeader_rows (P : list string -> Prop)
    (r : list piece) (fields : list Field) (w : Writer) :
  (forall originalRecord itemData row,
      buildRow fields originalRecord itemData = Ok row -> P row) ->
  exists rows : list (list string),
    written (afterHeader r fields w).1 = (written w ++ rows)%list /\ Forall P rows.
Proof.
  intros HP. unfold afterHeader.
  destruct (Decoder_Token (NewDecoder r)) as [[[]|?] decoder| |?];
    try (exists []; by rewrite app_nil_r).
  unfold afterArrayStart.
  destruct (String.eqb (getFlattenArrayPath fields) "");
    [exists []; by rewrite app_nil_r|].
  destruct (processRecords_rows fields (getFlattenArrayPath fields) P
              (tokenStack decoder) (input decoder) w HP) as [rows [Hwritten Hrows]].
  exists rows. split; [|done].
  destruct (processRecords _ _ _ _ w) as [w' [decoder'|e]]; [|done].
  by destruct (Decoder_Token decoder') as [[[]|?] ?| |?].
Qed.

Lemma afterHeader_Comma (r : list piece) (fields : list Field) (w : Writer) :
  Comma (afterHeader r fields w).1 = Comma w.
Proof.
  unfold afterHeader.
  destruct (Decoder_Token (NewDecoder r)) as [[[]|?] decoder| |?]; try done.
  unfold afterArrayStart.
  destruct (String.eqb (getFlattenArrayPath fields) ""); [done|].
  pose proof (processRecords_Comma fields (getFlattenArrayPath fields)
                (tokenStack decoder) (input decoder) w) as HC.
  destruct (processRecords _ _ _ _ w) as [w' [decoder'|e]]; [|done].
  by destruct (Decoder_Token decoder') as [[[]|?] ?| |?].
Qed.

(** The header step goes through or it does not. *)
Lemma header_accepted_or_not (options : Options) :
  headerAccepted options
  \/ (AddHeader options = true /\ validDelim (Delimiter options) = false).
Proof.
  unfold headerAccepted.
  destruct (AddHeader options), (validDelim (Delimiter options)); auto.
Qed.

(** X9: every row of the output, the header row included, has one cell
    for each field, whatever the input and however the run ends. *)
Theorem Convert_rows_have_one_cell_per_field (r : list piece) (options : Options) :
  Forall (fun row => length row = length (Fields options))
    (written (Convert r options).1).
Proof.
  destruct (header_accepted_or_not options) as [Hacc|[Hh Hv]].
  - rewrite Convert_header_done by done.
    destruct (afterHeader_rows (fun row => length row = length (Fields options))
                r (Fields options)
                {| Comma := Delimiter options; written := headerRows options |})
      as [rows [-> Hrows]].
    { intros originalRecord itemData row. apply buildRow_length. }
    apply Forall_app. split; [|done]. cbn [written]. unfold headerRows.
    destruct (AddHeader options); [|done].
    repeat constructor. apply length_map.
  - by rewrite Convert_header_failed.
Qed.

(** X13: the delimiter of the writer is the one given in the options,
    always: the test on [','] at the head of [Convert] sets nothing. *)
Theorem Convert_keeps_the_delimiter (r : list piece) (options : Options) :
  Comma (Convert r options).1 = Delimiter options.
Proof.
  destruct (header_accepted_or_not options) as [Hacc|[Hh Hv]].
  - rewrite Convert_header_done by done. by rewrite afterHeader_Comma.
  - by rewrite Convert_header_failed.
Qed.

(** X14: with a delimiter the writer rejects (NUL, a quote, a line break,
    no valid rune) nothing is ever written, and when a header is asked
    for [Convert] fails on it, before the input is looked at. *)
Theorem Convert_writes_nothing_with_an_invalid_delimiter
    (r : list piece) (options : Options) :
  validDelim (Delimiter options) = false ->
  written (Convert r options).1 = []
  /\ (AddHeader options = true ->
      (Convert r options).2
      = Some (ErrWriteHeader "csv: invalid field or comment delimiter")).
Proof.
  intros Hv. destruct (AddHeader options) eqn:Hh.
  - by rewrite Convert_header_failed.
  - rewrite Convert_header_done by (by left). unfold headerRows. rewrite Hh.
    by rewrite afterHeader_invalid.
Qed.

Lemma Convert_writes_nothing_with_an_invalid_delimiter_witness :
  written (Convert inputC4
             {| Fields := [plain "items[*].name" "Name"];
                Delimiter := 34; AddHeader := false |}).1 = []
  /\ (false = true ->
      (Convert inputC4
         {| Fields := [plain "items[*].name" "Name"];
            Delimiter := 34; AddHeader := false |}).2
      = Some (ErrWriteHeader "csv: invalid field or comment delimiter")).
Proof.
  exact (Convert_writes_nothing_with_an_invalid_delimiter inputC4
           {| Fields := [plain "items[*].name" "Name"];
              Delimiter := 34; AddHeader := false |} eq_refl).
Defined.

(** ** More of the driver: the rows of a record, the records of a stream *)

(** A path the resolver can not fail on gives a value. *)
Lemma getValueByDotPath_wellFormed (data : record) (path : string) :
  wellFormedPath path -> exists v, getValueByDotPath data path = Ok v.
Proof.
  intros [->|Hkeys]; [by eexists | by apply getValueByDotPath_no_error].
Qed.

Lemma fieldValue_effectivePath (field : Field) (originalRecord itemData : record) :
  wellFormedPath (effectivePath field) ->
  exists v, fieldValue field originalRecord itemData = Ok v.
Proof.
  unfold effectivePath, fieldValue.
  destruct (strings.Index (JSONPath field) marker) as [starIndex|]; intros Hwf.
  - destruct (getValueByDotPath_wellFormed itemData _ Hwf) as [v ->]. by eexists.
  - destruct (getValueByDotPath_wellFormed originalRecord _ Hwf) as [v ->]. by eexists.
Qed.

Lemma cell_plainWellFormed (field : Field) (originalRecord itemData : record) :
  plainWellFormed field -> exists c, cell field originalRecord itemData = Ok c.
Proof.
  intros [Hnone Hwf]. unfold cell.
  destruct (fieldValue_effectivePath field originalRecord itemData Hwf) as [v ->].
  rewrite Hnone. by eexists.
Qed.

Lemma buildRow_plainWellFormed
    (fields : list Field) (originalRecord itemData : record) :
  Forall plainWellFormed fields ->
  exists row, buildRow fields originalRecord itemData = Ok row.
Proof.
  induction 1 as [|field fields Hfield _ [row IH]]; cbn [buildRow]; [by eexists|].
  destruct (cell_plainWellFormed field originalRecord itemData Hfield) as [c ->].
  rewrite IH. by eexists.
Qed.

(** A field of an example is plain and well formed: by computation. *)
Ltac plain_well_formed :=
  split;
  [ reflexivity
  | first [ left; reflexivity
          | right; repeat (constructor; [discriminate|]); constructor ] ].

Lemma collectItems_objects (flattenArrayPath : string) (arr : list value) (i : nat) :
  Forall (fun item => item = VNil \/ exists m, item = VMap m) arr ->
  collectItems flattenArrayPath arr i = Ok (objects arr).
Proof.
  intros Harr. revert i.
  induction Harr as [|item arr [->|[m ->]] _ IH]; intros i; cbn [collectItems objects];
    [done | apply IH | by rewrite IH].
Qed.

Lemma writeItems_all_rows
    (fields : list Field) (originalRecord : record) (items : list record) (w : Writer) :
  validDelim (Comma w) = true ->
  (forall itemData, exists row, buildRow fields originalRecord itemData = Ok row) ->
  exists rows,
    writeItems fields originalRecord items w = (withRows w rows, None)
    /\ Forall2 (fun itemData row => buildRow fields originalRecord itemData = Ok row)
         items rows.
Proof.
  intros Hv Hrows. revert w Hv.
  induction items as [|item items IH]; intros w Hv; cbn [writeItems].
  - exists []. by rewrite withRows_nil.
  - destruct (Hrows item) as [row Hrow]. rewrite Hrow, Writer_Write_valid by done.
    destruct (IH (withRows w [row]) Hv) as [rows [-> Hall]].
    exists (row :: rows). rewrite withRows_app. split; [done | by constructor].
Qed.

(** X10: one row for each object of the array, in the order of the array,
    and none for a null. When the fields have no transformer and paths
    that are written well, the array at the flatten path holds only
    objects and nulls and the writer accepts its delimiter, a record adds
    to the output exactly the rows of its objects, and there is no
    error. *)
Theorem processRecord_one_row_per_object
    (fields : list Field) (flattenArrayPath : string) (originalRecord : record)
    (arr : list value) (w : Writer) :
  validDelim (Comma w) = true ->
  Forall plainWellFormed fields ->
  getValueByDotPath originalRecord flattenArrayPath = Ok (VArray arr) ->
  Forall (fun item => item = VNil \/ exists m, item = VMap m) arr ->
  exists rows,
    processRecord fields flattenArrayPath originalRecord w = (withRows w rows, None)
    /\ Forall2 (fun itemData row => buildRow fields originalRecord itemData = Ok row)
         (objects arr) rows.
Proof.
  intros Hv Hfields Harr Hshape. unfold processRecord.
  rewrite Harr, collectItems_objects by done.
  destruct (objects arr) as [|item items] eqn:Hobjects.
  - exists []. by rewrite withRows_nil.
  - cbn [length Nat.eqb]. apply writeItems_all_rows; [done|].
    intros itemData. by apply buildRow_plainWellFormed.
Qed.

Lemma processRecord_one_row_per_object_witness :
  exists rows,
    processRecord [plain "id" "ID"; plain "items[*].name" "Name"] "items" recordC9 NewWriter
    = (withRows NewWriter rows, None)
    /\ Forall2 (fun itemData row =>
                  buildRow [plain "id" "ID"; plain "items[*].name" "Name"]
                    recordC9 itemData = Ok row)
         (objects [object [("name", VString "a")]; VNil; object [("name", VString "c")]])
         rows.
Proof.
  refine (processRecord_one_row_per_object
            [plain "id" "ID"; plain "items[*].name" "Name"] "items" recordC9
            [object [("name", VString "a")]; VNil; object [("name", VString "c")]]
            NewWriter eq_refl _ eq_refl _).
  - repeat (constructor; [plain_well_formed|]). constructor.
  - repeat (constructor; [first [by left | right; by eexists]|]). constructor.
Defined.

(** X11: no row is taken back and none is written after a failure: when
    the rows of the first items are built and the row of the next one
    fails, the output has gained exactly the rows of the first items and
    the error is the one of the failing row. *)
Theorem writeItems_stops_at_the_first_failure
    (fields : list Field) (originalRecord : record)
    (before after : list record) (failing : record)
    (rows : list (list string)) (e : error) (w : Writer) :
  validDelim (Comma w) = true ->
  Forall2 (fun itemData row => buildRow fields originalRecord itemData = Ok row)
    before rows ->
  buildRow fields originalRecord failing = Err e ->
  writeItems fields originalRecord (before ++ failing :: after) w
  = (withRows w rows, Some e).
Proof.
  intros Hv Hbefore Hfail. revert w Hv.
  induction Hbefore as [|item row before rows Hrow _ IH]; intros w Hv;
    cbn [writeItems app].
  - by rewrite Hfail, withRows_nil.
  - rewrite Hrow, Writer_Write_valid by done.
    rewrite IH by done. by rewrite withRows_app.
Qed.

Lemma writeItems_stops_at_the_first_failure_witness :
  writeItems [plain "id" "ID"; plain "items[*].a..b" "B"] recordC9
    ([list_to_map [("x", VNil)]]
     ++ list_to_map [("a", VNil)] :: [list_to_map [("x", VNil)]])%list NewWriter
  = (withRows NewWriter [["1"; ""]],
     Some (ErrItemValue "items[*].a..b" "a..b" (ErrEmptyKey 1))).
Proof.
  refine (writeItems_stops_at_the_first_failure
            [plain "id" "ID"; plain "items[*].a..b" "B"] recordC9
            [list_to_map [("x", VNil)]] [list_to_map [("x", VNil)]]
            (list_to_map [("a", VNil)]) [["1"; ""]] _ NewWriter eq_refl _ eq_refl).
  repeat constructor.
Defined.

(** X12: the output is made record by record: over a stream that begins
    with elements whose processing ends well, the loop writes the rows of
    those elements and then exactly what it writes for the rest of the
    stream on its own; what a record gives does not depend on the records
    before it. *)
Theorem processRecords_rows_concatenate
    (fields : list Field) (flattenArrayPath : string) (tokens : list Delim)
    (elems rest : list piece) (w w1 : Writer) (decoder1 : Decoder) :
  validDelim (Comma w) = true ->
  Forall (fun p => morePiece p = true) elems ->
  processRecords fields flattenArrayPath tokens elems NewWriter = (w1, Ok decoder1) ->
  processRecords fields flattenArrayPath tokens (elems ++ rest) w =
  let '(w2, d) := processRecords fields flattenArrayPath tokens rest NewWriter in
  (withRows w (written w1 ++ written w2), d).
Proof.
  intros Hv Hmore Hfirst.
  rewrite processRecords_app_more by done.
  rewrite (processRecords_frame fields flattenArrayPath tokens elems w) by done.
  rewrite Hfirst. rewrite processRecords_frame by done.
  destruct (processRecords fields flattenArrayPath tokens rest NewWriter) as [w2 d].
  by rewrite withRows_app.
Qed.

Lemma processRecords_rows_concatenate_witness :
  processRecords [plain "id" "ID"; plain "items[*].name" "Name"] "items" [LBracket]
    ([PValue (VMap recordC9); PValue (VMap recordC8)]
     ++ [PValue (VMap recordC9); PDelim RBracket])%list NewWriter
  = let '(w2, d) :=
      processRecords [plain "id" "ID"; plain "items[*].name" "Name"] "items" [LBracket]
        [PValue (VMap recordC9); PDelim RBracket] NewWriter in
    (withRows NewWriter ([["1"; "a"]; ["1"; "c"]] ++ written w2), d).
Proof.
  refine (processRecords_rows_concatenate
            [plain "id" "ID"; plain "items[*].name" "Name"] "items" [LBracket]
            [PValue (VMap recordC9); PValue (VMap recordC8)]
            [PValue (VMap recordC9); PDelim RBracket]
            NewWriter {| Comma := 44; written := [["1"; "a"]; ["1"; "c"]] |}
            {| tokenStack := [LBracket]; input := [] |} eq_refl _ eq_refl).
  repeat constructor.
Defined.

(** ** More of the driver: where an error can come from *)

Lemma collectItems_error (flattenArrayPath : string) (arr : list value) (i : nat)
    (e : error) :
  collectItems flattenArrayPath arr i = Err e -> isCellError e = false.
Proof.
  revert i. induction arr as [|item arr IH]; intros i; cbn [collectItems]; [done|].
  destruct item as [| | | | |m|]; try (by intros [= <-]); [apply IH|].
  destruct (collectItems flattenArrayPath arr (S i)) eqn:Hrest; [done|].
  intros [= <-]. by eapply IH.
Qed.

Lemma writeItems_plain_error
    (fields : list Field) (originalRecord : record) (items : list record)
    (w w' : Writer) (e : error) :
  Forall plainWellFormed fields ->
  writeItems fields originalRecord items w = (w', Some e) -> isCellError e = false.
Proof.
  intros Hfields. revert w. induction items as [|item items IH]; intros w;
    cbn [writeItems]; [done|].
  destruct (buildRow_plainWellFormed fields originalRecord item Hfields) as [row ->].
  unfold Writer_Write. destruct (validDelim (Comma w)); [apply IH | by intros [= _ <-]].
Qed.

Lemma processRecord_plain_error
    (fields : list Field) (flattenArrayPath : string) (originalRecord : record)
    (w w' : Writer) (e : error) :
  Forall plainWellFormed fields ->
  processRecord fields flattenArrayPath originalRecord w = (w', Some e) ->
  isCellError e = false.
Proof.
  intros Hfields. unfold processRecord.
  destruct (getValueByDotPath originalRecord flattenArrayPath)
    as [[| | | |arr| |]|err]; try (by intros [= _ <-]).
  destruct (collectItems flattenArrayPath arr 0) as [items|err] eqn:Hitems.
  - destruct (length items =? 0)%nat; [done|]. by apply writeItems_plain_error.
  - intros [= _ <-]. by eapply collectItems_error.
Qed.

Lemma processRecords_plain_error
    (fields : list Field) (flattenArrayPath : string) (tokens : list Delim)
    (rest : list piece) (w w' : Writer) (e : error) :
  Forall plainWellFormed fields ->
  processRecords fields flattenArrayPath tokens rest w = (w', Err e) ->
  isCellError e = false.
Proof.
  intros Hfields. revert w. induction rest as [|p rest IH]; intros w;
    cbn [processRecords]; [done|].
  destruct (morePiece p); [|done].
  destruct (decodePiece p) as [originalRecord|err] eqn:Hdecode.
  - destruct (processRecord fields flattenArrayPath originalRecord w)
      as [w1 [err|]] eqn:Hrecord; [|apply IH].
    intros [= _ <-]. by eapply processRecord_plain_error.
  - intros [= _ <-]. by destruct p as [?|[]|?]; simplify_eq/=.
Qed.

(** X18: a cell can fail only through a transformer or a path that is not
    written well: when no field has a transformer and every path the
    resolver is given is empty or free of empty keys, no run of [Convert],
    whatever the input, ends with an error of a cell (a value that could
    not be got, a transformer that failed). *)
Theorem Convert_plain_fields_never_fail_on_a_cell
    (r : list piece) (options : Options) (e : error) :
  Forall plainWellFormed (Fields options) ->
  (Convert r options).2 = Some e ->
  isCellError e = false.
Proof.
  intros Hfields.
  destruct (header_accepted_or_not options) as [Hacc|[Hh Hv]];
    [|rewrite Convert_header_failed by done; by intros [= <-]].
  rewrite Convert_header_done by done. unfold afterHeader.
  destruct (Decoder_Token (NewDecoder r)) as [[[]|?] decoder| |?];
    try (by intros [= <-]).
  unfold afterArrayStart.
  destruct (String.eqb (getFlattenArrayPath (Fields options)) "");
    [by intros [= <-]|].
  destruct (processRecords _ _ _ _ _) as [w' [decoder'|err]] eqn:Hloop.
  - by destruct (Decoder_Token decoder') as [[[]|?] ?| |?]; intros He; simplify_eq/=.
  - intros [= <-]. by eapply processRecords_plain_error.
Qed.

Lemma Convert_plain_fields_never_fail_on_a_cell_witness :
  isCellError (ErrElementNotObject "tags" 0 "string") = false.
Proof.
  refine (Convert_plain_fields_never_fail_on_a_cell inputC2
            {| Fields := [plain "id" "id"; plain "tags[*]" "tag"];
               Delimiter := 44; AddHeader := true |}
            (ErrElementNotObject "tags" 0 "string") _ eq_refl).
  repeat (constructor; [plain_well_formed|]). constructor.
Defined.

(** ** More of the driver: after the closing bracket *)

Lemma afterArrayStart_ignores_what_follows
    (fields : list Field) (tokens : list Delim)
    (elems extra : list piece) (w : Writer) :
  afterArrayStart fields
    {| tokenStack := LBracket :: tokens; input := elems ++ PDelim RBracket :: extra |} w
  = afterArrayStart fields
      {| tokenStack := LBracket :: tokens; input := elems ++ [PDelim RBracket] |} w.
Proof.
  unfold afterArrayStart. cbn [tokenStack input].
  destruct (String.eqb (getFlattenArrayPath fields) ""); [done|].
  revert w. induction elems as [|p elems IH]; intros w; [done|].
  cbn [processRecords app]. destruct (morePiece p) eqn:Hmore.
  - destruct (decodePiece p) as [originalRecord|e]; [|done].
    destruct (processRecord fields (getFlattenArrayPath fields) originalRecord w)
      as [w1 [e|]]; [done | apply IH].
  - by destruct p as [[]| |].
Qed.

(** X19: [Convert] reads nothing after the bracket that closes the array:
    whatever follows it in the input, more JSON or bytes that are none,
    the rows and the result are those of the input that ends at the
    bracket. *)
Theorem Convert_ignores_what_follows_the_array
    (elems extra : list piece) (options : Options) :
  Convert (PDelim LBracket :: elems ++ PDelim RBracket :: extra) options
  = Convert (PDelim LBracket :: elems ++ [PDelim RBracket]) options.
Proof.
  destruct (header_accepted_or_not options) as [Hacc|[Hh Hv]].
  - rewrite !Convert_header_done by done. unfold afterHeader.
    cbn [Decoder_Token NewDecoder input tokenStack].
    apply afterArrayStart_ignores_what_follows.
  - by rewrite !Convert_header_failed.
Qed.

(** ** The transformers of the package *)

(** X15: [BoolToYesNo] never reports an error and changes the cell of a
    boolean only: [Yes] for true, [No] for false, and for every other
    value, nil included, the cell the value has without a transformer. *)
Theorem BoolToYesNo_changes_booleans_only (v : value) (originalRecord : record) :
  (BoolToYesNo v originalRecord).2 = None
  /\ valueToString (BoolToYesNo v originalRecord).1
     = match v with
       | VBool true => "Yes"
       | VBool false => "No"
       | _ => valueToString v
       end.
Proof. by destruct v as [|[]| | | | |]. Qed.

Lemma append_not_empty (s t : string) : t <> "" -> s ++ t <> "".
Proof. intros Ht. destruct s; [done | discriminate]. Qed.

(** X16: [ItemsSummaryTransformer] never reports an error and never gives
    an empty cell: what it returns is a string that is not empty, for nil,
    for an array, empty or not, and for anything else. *)
Theorem ItemsSummaryTransformer_never_empty (v : value) (originalRecord : record) :
  (ItemsSummaryTransformer v originalRecord).2 = None
  /\ exists s, (ItemsSummaryTransformer v originalRecord).1 = VString s /\ s <> "".
Proof.
  split.
  - destruct v as [| | | |items| |]; try done.
    unfold ItemsSummaryTransformer. by destruct (length items =? 0)%nat.
  - destruct v as [| | | |items| |];
      try (eexists; split; [reflexivity | discriminate]).
    unfold ItemsSummaryTransformer. destruct (length items =? 0)%nat.
    + eexists. split; [reflexivity | discriminate].
    + eexists. split; [reflexivity | by apply append_not_empty].
Qed.

(** ** The helper that nothing calls *)

(** X17: [getValueForField] finds what the code inside [Convert] finds:
    given the item when the JSONPath has a marker and the record when it
    has none, it returns a value exactly when [Convert] gets one for the
    field, and the same value; the two differ only in the text put around
    the resolver's error. *)
Theorem getValueForField_agrees_with_Convert
    (field : Field) (originalRecord itemData : record) :
  let data :=
    match strings.Index (JSONPath field) marker with
    | Some _ => itemData
    | None => originalRecord
    end in
  fieldValueOf (getValueForField field data originalRecord)
  = valueOf (fieldValue field originalRecord itemData).
Proof.
  unfold getValueForField, fieldValue, pathAfterStar.
  destruct (strings.Index (JSONPath field) marker) as [starIndex|]; cbn zeta.
  - set (after := if strings.HasPrefix _ "." then _ else _).
    destruct (String.eqb_spec after "") as [->|_]; [done|].
    by destruct (getValueByDotPath itemData after).
  - by destruct (getValueByDotPath originalRecord (JSONPath field)).
Qed.

(** ** The whole run on an input that is well shaped *)

Lemma processRecord_wellShaped
    (fields : list Field) (flattenArrayPath : string) (originalRecord : record)
    (w : Writer) :
  validDelim (Comma w) = true ->
  Forall plainWellFormed fields ->
  wellShaped flattenArrayPath originalRecord ->
  exists rows,
    processRecord fields flattenArrayPath originalRecord w = (withRows w rows, None)
    /\ Forall2 (fun source row => buildRow fields source.1 source.2 = Ok row)
         (List.map (pair originalRecord) (recordObjects flattenArrayPath originalRecord))
         rows.
Proof.
  intros Hv Hfields Hshape. unfold processRecord, recordObjects.
  destruct Hshape as [->|[arr [-> Harr]]].
  - exists []. by rewrite withRows_nil.
  - rewrite collectItems_objects by done.
    destruct (objects arr) as [|item items] eqn:Hobjects.
    + exists []. by rewrite withRows_nil.
    + cbn [length Nat.eqb].
      destruct (writeItems_all_rows fields originalRecord (item :: items) w Hv)
        as [rows [-> Hrows]].
      { intros itemData. by apply buildRow_plainWellFormed. }
      exists rows. split; [done|]. by apply Forall2_fmap_l.
Qed.

Lemma processRecords_wellShaped
    (fields : list Field) (flattenArrayPath : string) (tokens : list Delim)
    (records : list record) (rest : list piece) (w : Writer) :
  validDelim (Comma w) = true ->
  Forall plainWellFormed fields ->
  Forall (wellShaped flattenArrayPath) records ->
  exists rows,
    processRecords fields flattenArrayPath tokens
      (List.map PValue (List.map VMap records) ++ PDelim RBracket :: rest) w
    = (withRows w rows,
       Ok {| tokenStack := tokens; input := PDelim RBracket :: rest |})
    /\ Forall2 (fun source row => buildRow fields source.1 source.2 = Ok row)
         (rowSources flattenArrayPath records) rows.
Proof.
  intros Hv Hfields Hrecords. revert w Hv.
  induction Hrecords as [|originalRecord records Hshape _ IH]; intros w Hv.
  - exists []. rewrite withRows_nil. split; [done | constructor].
  - cbn [List.map app processRecords morePiece decodePiece].
    destruct (processRecord_wellShaped fields flattenArrayPath originalRecord w
                Hv Hfields Hshape) as [rows1 [-> Hrows1]].
    destruct (IH (withRows w rows1) Hv) as [rows [-> Hrows]].
    exists (rows1 ++ rows)%list. rewrite withRows_app. split; [done|].
    unfold rowSources. cbn [flat_map]. by apply Forall2_app.
Qed.

(** X20: the whole run on an input that is as it should be. When the
    writer accepts the delimiter, the fields have no transformer and paths
    written well, there is a flatten path, and the input is one array of
    objects each of which has, at the flatten path, nil or an array of
    objects and nulls, [Convert] reports no error and its output is the
    header row, if it is asked for, and then one row for each object of
    each record, in the order of the input. *)
Theorem Convert_well_shaped_input
    (records : list record) (options : Options) :
  validDelim (Delimiter options) = true ->
  Forall plainWellFormed (Fields options) ->
  getFlattenArrayPath (Fields options) <> "" ->
  Forall (wellShaped (getFlattenArrayPath (Fields options))) records ->
  exists rows,
    Convert [PValue (VArray (List.map VMap records))] options
    = ({| Comma := Delimiter options; written := headerRows options ++ rows |}, None)
    /\ Forall2 (fun source row =>
                  buildRow (Fields options) source.1 source.2 = Ok row)
         (rowSources (getFlattenArrayPath (Fields options)) records) rows.
Proof.
  intros Hv Hfields Hpath Hrecords.
  rewrite Convert_header_done by (by right).
  unfold afterHeader. cbn [Decoder_Token NewDecoder input tokenStack].
  unfold afterArrayStart. cbn [input tokenStack].
  destruct (String.eqb_spec (getFlattenArrayPath (Fields options)) "") as [?|_];
    [done|].
  destruct (processRecords_wellShaped (Fields options)
              (getFlattenArrayPath (Fields options)) [LBracket] records []
              {| Comma := Delimiter options; written := headerRows options |}
              Hv Hfields Hrecords) as [rows [-> Hrows]].
  by exists rows.
Qed.

Lemma Convert_well_shaped_input_witness :
  exists rows,
    Convert [PValue (VArray (List.map VMap [recordC9; recordC8]))] optionsItems
    = ({| Comma := 44; written := headerRows optionsItems ++ rows |}, None)
    /\ Forall2 (fun source row =>
                  buildRow (Fields optionsItems) source.1 source.2 = Ok row)
         (rowSources (getFlattenArrayPath (Fields optionsItems)) [recordC9; recordC8])
         rows.
Proof.
  refine (Convert_well_shaped_input [recordC9; recordC8] optionsItems eq_refl _ _ _).
  - repeat (constructor; [plain_well_formed|]). constructor.
  - discriminate.
  - repeat (constructor;
            [right; eexists; split;
             [reflexivity
             | repeat (constructor; [first [by left | right; by eexists]|]); constructor]|]).
    constructor.
Defined.

(** X21: an element that is neither an object nor null spoils the whole
    record: whatever objects come before it in the array, no row of the
    record is written, and the error names the flatten path, the index of
    the first such element and its type. *)
Theorem processRecord_bad_element
    (fields : list Field) (flattenArrayPath : string) (originalRecord : record)
    (before after : list value) (bad : value) (w : Writer) :
  getValueByDotPath originalRecord flattenArrayPath
  = Ok (VArray (before ++ bad :: after)) ->
  Forall (fun item => item = VNil \/ exists m, item = VMap m) before ->
  bad <> VNil -> (forall m, bad <> VMap m) ->
  processRecord fields flattenArrayPath originalRecord w
  = (w, Some (ErrElementNotObject flattenArrayPath (length before) (typeName bad))).
Proof.
  intros Harr Hbefore Hnil Hmap. unfold processRecord. rewrite Harr.
  assert (forall i, collectItems flattenArrayPath (before ++ bad :: after) i
                    = Err (ErrElementNotObject flattenArrayPath
                             (i + length before) (typeName bad))) as Hcollect.
  { clear Harr. induction Hbefore as [|item before [->|[m ->]] _ IH]; intros i;
      cbn [collectItems app length].
    - rewrite Nat.add_0_r.
      destruct bad as [| | | | |m|]; try done; by destruct (Hmap m).
    - rewrite IH. by rewrite Nat.add_succ_r.
    - rewrite IH. by rewrite Nat.add_succ_r. }
  by rewrite Hcollect.
Qed.

Lemma processRecord_bad_element_witness :
  processRecord [plain "items[*].name" "Name"] "items"
    (list_to_map [("items", VArray [object [("name", VString "a")]; VString "b"])])
    NewWriter
  = (NewWriter, Some (ErrElementNotObject "items" 1 "string")).
Proof.
  refine (processRecord_bad_element [plain "items[*].name" "Name"] "items"
            (list_to_map [("items", VArray [object [("name", VString "a")]; VString "b"])])
            [object [("name", VString "a")]] [] (VString "b") NewWriter
            eq_refl _ _ _).
  - constructor; [right; by eexists | constructor].
  - discriminate.
  - discriminate.
Defined.
